(** * STM32Audio: worker pool and capture pipeline

    A shallow embedding of the thread pool (core_thread.c) and of the
    DFSDM audio recorder (audio_recorder.c), with the properties the
    design document states about them.

    The C code runs on CMSIS-RTOS2 and the STM32 HAL.  Neither is part of
    the repository, so their primitives are modelled here from their
    documented behaviour; every such definition says so.  Everything else
    is translated function by function from the C sources. *)

From Stdlib Require Import ZArith Lia String.
From stdpp Require Import base option list gmap.

Set Default Proof Using "Type".
Local Open Scope Z_scope.

(** ** Machine integers *)

(** [uint32_t] arithmetic wraps modulo 2^32. *)
Definition wrap32 (z : Z) : Z := z mod 2 ^ 32.

(** The value of a 32-bit pattern read as [int32_t] (two's complement). *)
Definition int32_of_bits (w : Z) : Z :=
  let u := wrap32 w in if u <? 2 ^ 31 then u else u - 2 ^ 32.

(** The conversion [(int16_t) x] of the ARM ABI: keep the low 16 bits and
    read them as two's complement. *)
Definition cast_int16 (z : Z) : Z := (z + 32768) mod 65536 - 32768.

(** ** CMSIS-RTOS2 primitives *)

Module CMSIS.

Inductive osStatus_t :=
| osOK
| osError
| osErrorTimeout
| osErrorResource
| osErrorParameter
| osErrorNoMemory
| osErrorISR.

#[global] Instance osStatus_eq_dec : EqDecision osStatus_t.
Proof. solve_decision. Defined.

(** Modelled from the spec: the bounded, priority-ordered mailbox of
    the RTOS (osMessageQueue).  The content is kept in dequeue order:
    strict priority-class order, first-in first-out inside a class.
    Each entry carries the [msg_prio] it was put with. *)
Record MessageQueue (A : Type) := mkQueue {
  mq_capacity : nat;
  mq_items : list (Z * A)
}.
Arguments mkQueue {A} _ _.
Arguments mq_capacity {A} _.
Arguments mq_items {A} _.

(** Modelled from the spec: insertion point of a message of priority
    [prio]: behind every queued message of the same or a higher
    priority, ahead of every message of a lower one. *)
Fixpoint mq_insert {A} (prio : Z) (msg : A) (items : list (Z * A))
  : list (Z * A) :=
  match items with
  | [] => [(prio, msg)]
  | (p, m) :: rest =>
      if p <? prio then (prio, msg) :: (p, m) :: rest
      else (p, m) :: mq_insert prio msg rest
  end.

Definition mq_full {A} (q : MessageQueue A) : bool :=
  (mq_capacity q <=? length (mq_items q))%nat.

(** Modelled from the spec: osMessageQueueNew(count, size, NULL) when
    the kernel has the memory for it. *)
Definition mq_new {A} (count : nat) : MessageQueue A := mkQueue count [].

(** Modelled from the spec: osMessageQueuePut with a zero timeout, the
    only form allowed in interrupt context.  A NULL queue is a
    parameter error, a full queue reports osErrorResource at once and
    the message is not stored. *)
Definition osMessageQueuePut_nowait {A} (q : option (MessageQueue A))
    (msg : A) (prio : Z) : osStatus_t * option (MessageQueue A) :=
  match q with
  | None => (osErrorParameter, None)
  | Some mq =>
      if mq_full mq then (osErrorResource, Some mq)
      else (osOK, Some (mkQueue (mq_capacity mq)
                                (mq_insert prio msg (mq_items mq))))
  end.

(** Modelled from the spec: osMessageQueueGet at the moment it returns:
    the head of the mailbox is removed and handed out.  [None] means the
    caller stays blocked (empty or NULL queue, osWaitForever). *)
Definition osMessageQueueGet_ready {A} (q : option (MessageQueue A))
  : option (A * MessageQueue A) :=
  match q with
  | Some mq =>
      match mq_items mq with
      | (_, m) :: rest => Some (m, mkQueue (mq_capacity mq) rest)
      | [] => None
      end
  | None => None
  end.

(** Modelled from the spec: a counting semaphore with [sem_max] tokens
    at most. *)
Record Semaphore := mkSem { sem_max : nat; sem_count : nat }.

Definition osSemaphoreRelease (s : option Semaphore)
  : osStatus_t * option Semaphore :=
  match s with
  | None => (osErrorParameter, None)
  | Some sm =>
      if (sem_count sm <? sem_max sm)%nat
      then (osOK, Some (mkSem (sem_max sm) (S (sem_count sm))))
      else (osErrorResource, Some sm)
  end.

(** [None]: the caller stays blocked. *)
Definition osSemaphoreAcquire_ready (s : option Semaphore)
  : option Semaphore :=
  match s with
  | Some sm =>
      match sem_count sm with
      | S n => Some (mkSem (sem_max sm) n)
      | O => None
      end
  | None => None
  end.

End CMSIS.

(** ** Audio recorder (audio_recorder.h, audio_recorder.c) *)

Module AudioRecorder.
Import CMSIS.

Definition AUDIO_BUFFER_SIZE : nat := 2048.

Inductive audio_buffer_state_t :=
| AUDIO_BUFFER_EMPTY
| AUDIO_BUFFER_HALF_FULL
| AUDIO_BUFFER_FULL.

#[global] Instance audio_buffer_state_eq_dec : EqDecision audio_buffer_state_t.
Proof. solve_decision. Defined.

(** [left_buffer] and [right_buffer] hold [int32_t] samples,
    [playback_buffer] holds [int16_t] samples; all three are C arrays of a
    fixed size ([audio_data_wf]). *)
Record audio_data_t := mkAudioData {
  left_buffer : list Z;
  right_buffer : list Z;
  playback_buffer : list Z;
  buffer_state : audio_buffer_state_t;
  buffer_index : Z
}.

Record audio_recorder_t := mkRecorder {
  audio_data : audio_data_t;
  audio_semaphore : option Semaphore;
  audio_queue : option (MessageQueue audio_buffer_state_t);
  is_recording : bool
}.

Definition audio_data_wf (d : audio_data_t) : Prop :=
  length (left_buffer d) = AUDIO_BUFFER_SIZE ∧
  length (right_buffer d) = AUDIO_BUFFER_SIZE ∧
  length (playback_buffer d) = (AUDIO_BUFFER_SIZE * 2)%nat.

(** *** Collaborators: HAL driver, kernel calls and logger *)

Inductive HAL_StatusTypeDef := HAL_OK | HAL_ERROR | HAL_BUSY | HAL_TIMEOUT.

#[global] Instance HAL_Status_eq_dec : EqDecision HAL_StatusTypeDef.
Proof. solve_decision. Defined.

Inductive dfsdm_filter_id := Filter0 | Filter1.
Inductive dma_buffer := LeftBuffer | RightBuffer.

Definition DFSDM_CHANNEL_0 : Z := 0.
Definition DFSDM_CHANNEL_3 : Z := 3.

(** Modelled from the spec: one conversion channel of the hardware
    streaming source: the regular channel it is configured for, and
    the buffer and length of the continuous transfer that is running, if
    any. *)
Record DFSDM_Filter_HandleTypeDef := mkFilter {
  regular_channel : option Z;
  dma_running : option (dma_buffer * nat)
}.

Inductive hal_call :=
| CallConfigRegChannel (f : dfsdm_filter_id) (channel : Z)
| CallRegularStart_DMA (f : dfsdm_filter_id) (buf : dma_buffer) (len : nat)
| CallRegularStop_DMA (f : dfsdm_filter_id).

(** A call of osMessageQueuePut on the event queue, with the arguments
    it was given. *)
Inductive os_call :=
| CallMessageQueuePut (msg : audio_buffer_state_t) (msg_prio timeout : Z).

Inductive log_level := LOG_DEBUG | LOG_INFO | LOG_WARN | LOG_ERROR.

(** Everything the recorder functions read or write: the global
    recorder instance, the two filter handles of dfsdm.c, the driver
    calls and the queue puts issued so far (oldest first), the lines
    logged so far (newest first), and the status the driver reports for
    its n-th call. *)
Record world := mkWorld {
  g_audio_recorder : audio_recorder_t;
  hdfsdm1_filter0 : DFSDM_Filter_HandleTypeDef;
  hdfsdm1_filter1 : DFSDM_Filter_HandleTypeDef;
  hal_trace : list hal_call;
  os_trace : list os_call;
  logged : list (log_level * string);
  hal_result : nat → HAL_StatusTypeDef
}.

(** A state monad over [world]; [x ← m; k] sequences two statements. *)
Definition Rec (A : Type) : Type := world → A * world.

#[global] Instance rec_ret : MRet Rec := λ A a w, (a, w).
#[global] Instance rec_bind : MBind Rec :=
  λ A B k m w, let '(a, w') := m w in k a w'.

Definition LOG (lvl : log_level) (msg : string) : Rec unit :=
  λ w, (tt, mkWorld (g_audio_recorder w) (hdfsdm1_filter0 w)
                    (hdfsdm1_filter1 w) (hal_trace w) (os_trace w)
                    ((lvl, msg) :: logged w) (hal_result w)).

Definition get_recorder : Rec audio_recorder_t :=
  λ w, (g_audio_recorder w, w).

Definition set_recorder (r : audio_recorder_t) : Rec unit :=
  λ w, (tt, mkWorld r (hdfsdm1_filter0 w) (hdfsdm1_filter1 w)
                    (hal_trace w) (os_trace w) (logged w) (hal_result w)).

Definition get_filter (f : dfsdm_filter_id) (w : world)
  : DFSDM_Filter_HandleTypeDef :=
  match f with Filter0 => hdfsdm1_filter0 w | Filter1 => hdfsdm1_filter1 w end.

Definition set_filter (f : dfsdm_filter_id) (h : DFSDM_Filter_HandleTypeDef)
    (w : world) : world :=
  match f with
  | Filter0 => mkWorld (g_audio_recorder w) h (hdfsdm1_filter1 w)
                       (hal_trace w) (os_trace w) (logged w) (hal_result w)
  | Filter1 => mkWorld (g_audio_recorder w) (hdfsdm1_filter0 w) h
                       (hal_trace w) (os_trace w) (logged w) (hal_result w)
  end.

Definition record_call (c : hal_call) (w : world) : world :=
  mkWorld (g_audio_recorder w) (hdfsdm1_filter0 w) (hdfsdm1_filter1 w)
          (hal_trace w ++ [c]) (os_trace w) (logged w) (hal_result w).

(** Modelled from the spec: a driver call is recorded, reports the
    status the hardware gives for it, and takes effect on the filter
    only when that status is HAL_OK. *)
Definition hal_invoke (c : hal_call) (f : dfsdm_filter_id)
    (effect : DFSDM_Filter_HandleTypeDef → DFSDM_Filter_HandleTypeDef)
  : Rec HAL_StatusTypeDef :=
  λ w,
    let st := hal_result w (length (hal_trace w)) in
    match st with
    | HAL_OK => (HAL_OK, set_filter f (effect (get_filter f w))
                                    (record_call c w))
    | _ => (st, record_call c w)
    end.

Definition HAL_DFSDM_FilterConfigRegChannel (f : dfsdm_filter_id)
    (channel : Z) : Rec HAL_StatusTypeDef :=
  hal_invoke (CallConfigRegChannel f channel) f
    (λ h, mkFilter (Some channel) (dma_running h)).

Definition HAL_DFSDM_FilterRegularStart_DMA (f : dfsdm_filter_id)
    (buf : dma_buffer) (len : nat) : Rec HAL_StatusTypeDef :=
  hal_invoke (CallRegularStart_DMA f buf len) f
    (λ h, mkFilter (regular_channel h) (Some (buf, len))).

Definition HAL_DFSDM_FilterRegularStop_DMA (f : dfsdm_filter_id)
  : Rec HAL_StatusTypeDef :=
  hal_invoke (CallRegularStop_DMA f) f
    (λ h, mkFilter (regular_channel h) None).

(** osMessageQueuePut(g_audio_recorder.audio_queue, &msg, prio, 0): the
    call is recorded and acts on the recorder's event queue. *)
Definition audio_queue_put (msg : audio_buffer_state_t) (msg_prio : Z)
  : Rec osStatus_t :=
  λ w,
    let r := g_audio_recorder w in
    let '(st, q) := osMessageQueuePut_nowait (audio_queue r) msg msg_prio in
    (st, mkWorld (mkRecorder (audio_data r) (audio_semaphore r) q
                             (is_recording r))
                 (hdfsdm1_filter0 w) (hdfsdm1_filter1 w) (hal_trace w)
                 (os_trace w ++ [CallMessageQueuePut msg msg_prio 0])
                 (logged w) (hal_result w)).

Definition set_is_recording (b : bool) : Rec unit :=
  r ← get_recorder;
  set_recorder (mkRecorder (audio_data r) (audio_semaphore r)
                           (audio_queue r) b).

Definition with_buffer_state (s : audio_buffer_state_t) (d : audio_data_t)
  : audio_data_t :=
  mkAudioData (left_buffer d) (right_buffer d) (playback_buffer d) s
              (buffer_index d).

Definition with_playback (p : list Z) (d : audio_data_t) : audio_data_t :=
  mkAudioData (left_buffer d) (right_buffer d) p (buffer_state d)
              (buffer_index d).

Definition set_buffer_state (s : audio_buffer_state_t) : Rec unit :=
  r ← get_recorder;
  set_recorder (mkRecorder (with_buffer_state s (audio_data r))
                           (audio_semaphore r) (audio_queue r)
                           (is_recording r)).

(** *** audio_recorder.c *)

(** [sem_created] and [queue_created] tell whether the kernel could
    create the semaphore and the queue. *)
Definition audio_recorder_init (sem_created queue_created : bool)
  : Rec unit :=
  LOG LOG_INFO "Initializing Audio Recorder...";;
  r ← get_recorder;
  (* memset(&audio_data, 0, sizeof(audio_data_t)) *)
  let d := mkAudioData (replicate AUDIO_BUFFER_SIZE 0)
                       (replicate AUDIO_BUFFER_SIZE 0)
                       (replicate (AUDIO_BUFFER_SIZE * 2) 0)
                       AUDIO_BUFFER_EMPTY 0 in
  let sem := if sem_created then Some (mkSem 1 0) else None in
  set_recorder (mkRecorder d sem (audio_queue r) false);;
  if sem is None then LOG LOG_ERROR "Failed to create audio semaphore"
  else
    let q := if queue_created then Some (mq_new 10) else None in
    set_recorder (mkRecorder d sem q false);;
    if q is None then LOG LOG_ERROR "Failed to create audio queue"
    else LOG LOG_INFO "Audio Recorder initialized successfully".

Definition audio_recorder_start : Rec unit :=
  r ← get_recorder;
  if is_recording r then LOG LOG_WARN "Audio recording already started"
  else
    LOG LOG_INFO "Starting audio recording...";;
    st ← HAL_DFSDM_FilterConfigRegChannel Filter0 DFSDM_CHANNEL_0;
    if decide (st ≠ HAL_OK)
    then LOG LOG_ERROR "Failed to configure left DFSDM channel"
    else
    st ← HAL_DFSDM_FilterConfigRegChannel Filter1 DFSDM_CHANNEL_3;
    if decide (st ≠ HAL_OK)
    then LOG LOG_ERROR "Failed to configure right DFSDM channel"
    else
    st ← HAL_DFSDM_FilterRegularStart_DMA Filter1 RightBuffer
           AUDIO_BUFFER_SIZE;
    if decide (st ≠ HAL_OK)
    then LOG LOG_ERROR "Failed to start right DFSDM filter"
    else
    st ← HAL_DFSDM_FilterRegularStart_DMA Filter0 LeftBuffer
           AUDIO_BUFFER_SIZE;
    if decide (st ≠ HAL_OK)
    then LOG LOG_ERROR "Failed to start left DFSDM filter"
    else
    set_is_recording true;;
    LOG LOG_INFO "Audio recording started successfully".

Definition audio_recorder_stop : Rec unit :=
  r ← get_recorder;
  if negb (is_recording r) then LOG LOG_WARN "Audio recording not active"
  else
    LOG LOG_INFO "Stopping audio recording...";;
    HAL_DFSDM_FilterRegularStop_DMA Filter0;;
    HAL_DFSDM_FilterRegularStop_DMA Filter1;;
    set_is_recording false;;
    LOG LOG_INFO "Audio recording stopped".

(** One turn of the [while (1)] of audio_recorder_task, taken when its
    osMessageQueueGet returns; with nothing queued the task stays
    blocked and the world is as it was. *)
Definition audio_recorder_task_turn : Rec unit :=
  r ← get_recorder;
  match osMessageQueueGet_ready (audio_queue r) with
  | None => mret tt
  | Some (buffer_state, q) =>
      let r1 := mkRecorder (audio_data r) (audio_semaphore r) (Some q)
                           (is_recording r) in
      set_recorder r1;;
      match buffer_state with
      | AUDIO_BUFFER_HALF_FULL =>
          LOG LOG_DEBUG "Audio buffer half complete";;
          set_recorder
            (mkRecorder (audio_data r1)
               (snd (osSemaphoreRelease (audio_semaphore r1)))
               (audio_queue r1) (is_recording r1))
      | AUDIO_BUFFER_FULL =>
          LOG LOG_DEBUG "Audio buffer full complete";;
          set_recorder
            (mkRecorder (audio_data r1)
               (snd (osSemaphoreRelease (audio_semaphore r1)))
               (audio_queue r1) (is_recording r1))
      | _ => LOG LOG_WARN "Unknown buffer state: %d"
      end
  end.

(** The saturation of audio_processor_task:
    [if (s > 32767) s = 32767; else if (s < -32768) s = -32768;]. *)
Definition saturate16 (s : Z) : Z :=
  if 32767 <? s then 32767 else if s <? -32768 then -32768 else s.

(** The body of the conversion loop for index [i].  Reading or writing
    outside an array has no defined behaviour in C: the model has no
    result there. *)
Definition convert_sample (i : nat) (d : audio_data_t)
  : option audio_data_t :=
  l ← left_buffer d !! i;
  r ← right_buffer d !! i;
  let left_sample := saturate16 (l ≫ 8) in
  let right_sample := saturate16 (r ≫ 8) in
  guard (2 * i + 1 < length (playback_buffer d))%nat;;
  Some (with_playback
          (<[(2 * i + 1)%nat := cast_int16 right_sample]>
             (<[(2 * i)%nat := cast_int16 left_sample]> (playback_buffer d)))
          d).

(** [for (i = i0; i < i0 + count; i++)]. *)
Fixpoint convert_from (count i : nat) (d : audio_data_t)
  : option audio_data_t :=
  match count with
  | O => Some d
  | S c => d' ← convert_sample i d; convert_from c (S i) d'
  end.

Definition convert_range (start_index end_index : nat) (d : audio_data_t)
  : option audio_data_t :=
  convert_from (end_index - start_index) start_index d.

(** The half of the buffers the processor picks from the current
    [buffer_state]. *)
Definition selected_range (s : audio_buffer_state_t) : nat * nat :=
  let start_index := 0%nat in
  let end_index := (AUDIO_BUFFER_SIZE / 2)%nat in
  if decide (s = AUDIO_BUFFER_FULL)
  then ((AUDIO_BUFFER_SIZE / 2)%nat, AUDIO_BUFFER_SIZE)
  else (start_index, end_index).

(** What audio_processor_task does once osSemaphoreAcquire has returned
    osOK. *)
Definition audio_processor_run (w : world) : option world :=
  let r := g_audio_recorder w in
  if negb (is_recording r) then Some w
  else
    let '(start_index, end_index) :=
      selected_range (buffer_state (audio_data r)) in
    d ← convert_range start_index end_index (audio_data r);
    Some (snd ((set_recorder (mkRecorder d (audio_semaphore r)
                                          (audio_queue r) (is_recording r));;
                LOG LOG_DEBUG "Processed audio samples from %lu to %lu") w)).

(** One turn of the [while (1)] of audio_processor_task: it stays
    blocked while the semaphore has no token. *)
Definition audio_processor_task_turn (w : world) : option world :=
  let r := g_audio_recorder w in
  match osSemaphoreAcquire_ready (audio_semaphore r) with
  | None => Some w
  | Some sem =>
      audio_processor_run
        (snd (set_recorder (mkRecorder (audio_data r) (Some sem)
                                       (audio_queue r) (is_recording r)) w))
  end.

Definition audio_recorder_half_complete_callback : Rec unit :=
  let state := AUDIO_BUFFER_HALF_FULL in
  set_buffer_state AUDIO_BUFFER_HALF_FULL;;
  audio_queue_put state 0;;
  mret tt.

Definition audio_recorder_full_complete_callback : Rec unit :=
  let state := AUDIO_BUFFER_FULL in
  set_buffer_state AUDIO_BUFFER_FULL;;
  audio_queue_put state 0;;
  mret tt.

End AudioRecorder.

(** ** Thread pool (core_thread.h, core_thread.c) *)

Module ThreadPool.
Import CMSIS.

(** Kernel object identifiers and heap addresses; a NULL handle or
    pointer is [None]. *)
Definition handle := nat.

(** The address of a task function. *)
Definition fn_ptr := nat.

Definition osPriority_t := Z.
Definition osPriorityNormal : osPriority_t := 24.

Definition THREADPOOL_THREAD_COUNT : nat := 4.
Definition THREADPOOL_QUEUE_SIZE : nat := 20.
Definition THREADPOOL_TASK_TIMEOUT : nat := 100.
Definition THREADPOOL_STACK_SIZE : nat := 2048.

(** The [uint32_t] fields are kept as natural numbers; they are below
    2^32 ([config_in_range]). *)
Record ThreadPoolConfig := mkConfig {
  cfg_thread_count : nat;
  cfg_queue_size : nat;
  cfg_default_timeout : nat;
  cfg_stack_size : nat;
  cfg_low_power_mode : bool;
  cfg_default_thread_priority : osPriority_t
}.

Definition config_in_range (c : ThreadPoolConfig) : Prop :=
  Z.of_nat (cfg_thread_count c) < 2 ^ 32 ∧
  Z.of_nat (cfg_queue_size c) < 2 ^ 32 ∧
  Z.of_nat (cfg_stack_size c) < 2 ^ 32.

Inductive ThreadPoolPriority :=
| THREADPOOL_PRIORITY_LOW
| THREADPOOL_PRIORITY_NORMAL
| THREADPOOL_PRIORITY_HIGH
| THREADPOOL_PRIORITY_CRITICAL.

Inductive ThreadPoolError :=
| THREADPOOL_SUCCESS
| THREADPOOL_ERROR_INVALID_ARG
| THREADPOOL_ERROR_ALLOC
| THREADPOOL_ERROR_QUEUE_CREATE
| THREADPOOL_ERROR_THREAD_CREATE
| THREADPOOL_ERROR_QUEUE_FULL
| THREADPOOL_ERROR_SHUTDOWN
| THREADPOOL_ERROR_NOT_INITIALIZED.

Inductive ThreadPoolState :=
| THREADPOOL_RUNNING
| THREADPOOL_SHUTTING_DOWN
| THREADPOOL_STOPPED.

#[global] Instance ThreadPoolState_eq_dec : EqDecision ThreadPoolState.
Proof. solve_decision. Defined.

#[global] Instance ThreadPoolError_eq_dec : EqDecision ThreadPoolError.
Proof. solve_decision. Defined.

#[global] Instance ThreadPoolPriority_eq_dec : EqDecision ThreadPoolPriority.
Proof. solve_decision. Defined.

Record Task := mkTask {
  function : option fn_ptr;
  arg : Z;
  is_shutdown_signal : bool;
  priority : ThreadPoolPriority;
  execution_priority : osPriority_t
}.

#[global] Instance Task_eq_dec : EqDecision Task.
Proof. solve_decision. Defined.

(** [Task t = {0}]. *)
Definition zero_task : Task :=
  mkTask None 0 false THREADPOOL_PRIORITY_LOW 0.

(** [pool_block] is the address of the structure itself, the pointer
    pvPortMalloc returned for it.  [worker_threads] points to a heap
    array: its address and its content. *)
Record ThreadPoolInternal := mkPool {
  pool_block : handle;
  task_queue : option handle;
  worker_threads : option (handle * list (option handle));
  thread_count : nat;
  state : ThreadPoolState;
  state_mutex : option handle;
  active_tasks : Z;
  active_tasks_mutex : option handle;
  main_thread : option handle;
  low_power_mode : bool;
  config : ThreadPoolConfig
}.

Definition set_task_queue (q : option handle) (p : ThreadPoolInternal) :=
  mkPool (pool_block p) q (worker_threads p) (thread_count p) (state p)
         (state_mutex p) (active_tasks p) (active_tasks_mutex p)
         (main_thread p) (low_power_mode p) (config p).

Definition set_worker_threads (a : option (handle * list (option handle)))
    (p : ThreadPoolInternal) :=
  mkPool (pool_block p) (task_queue p) a (thread_count p) (state p)
         (state_mutex p) (active_tasks p) (active_tasks_mutex p)
         (main_thread p) (low_power_mode p) (config p).

Definition set_state (st : ThreadPoolState) (p : ThreadPoolInternal) :=
  mkPool (pool_block p) (task_queue p) (worker_threads p) (thread_count p) st
         (state_mutex p) (active_tasks p) (active_tasks_mutex p)
         (main_thread p) (low_power_mode p) (config p).

Definition set_mutexes (sm am : option handle) (p : ThreadPoolInternal) :=
  mkPool (pool_block p) (task_queue p) (worker_threads p) (thread_count p)
         (state p) sm (active_tasks p) am
         (main_thread p) (low_power_mode p) (config p).

Definition set_active_tasks (n : Z) (p : ThreadPoolInternal) :=
  mkPool (pool_block p) (task_queue p) (worker_threads p) (thread_count p)
         (state p) (state_mutex p) n (active_tasks_mutex p)
         (main_thread p) (low_power_mode p) (config p).

(** *** Kernel objects and heap blocks *)

Inductive kobj := KMutex | KMessageQueue | KThread | KHeapBlock.

#[global] Instance kobj_eq_dec : EqDecision kobj.
Proof. solve_decision. Defined.

(** Modelled from the spec: the objects that are alive, by handle; the
    next unused handle; the number of creation requests made so far;
    and, for the n-th request, whether the kernel can grant it. *)
Record kernel := mkKernel {
  k_live : gmap handle kobj;
  k_next : handle;
  k_requests : nat;
  k_grant : nat → bool
}.

(** Modelled from the spec: osMutexNew, osMessageQueueNew, osThreadNew
    and pvPortMalloc: a new object under a fresh handle, or NULL. *)
Definition k_create (o : kobj) (k : kernel) : option handle * kernel :=
  if k_grant k (k_requests k)
  then (Some (k_next k),
        mkKernel (<[k_next k := o]> (k_live k)) (S (k_next k))
                 (S (k_requests k)) (k_grant k))
  else (None, mkKernel (k_live k) (k_next k) (S (k_requests k)) (k_grant k)).

(** Modelled from the spec: osMutexDelete, osMessageQueueDelete,
    vPortFree, and the end of a thread. *)
Definition k_release (h : handle) (k : kernel) : kernel :=
  mkKernel (delete h (k_live k)) (k_next k) (k_requests k) (k_grant k).

Definition osMutexNew := k_create KMutex.
Definition osMessageQueueNew := k_create KMessageQueue.
Definition osThreadNew := k_create KThread.
Definition pvPortMalloc := k_create KHeapBlock.

(** [if (h) release(h);]. *)
Definition release_if (h : option handle) (k : kernel) : kernel :=
  match h with Some x => k_release x k | None => k end.

(** *** create_threadpool_internal *)

(** The [error:] label. *)
Definition create_error (pool : ThreadPoolInternal) (k : kernel) : kernel :=
  let k := release_if (task_queue pool) k in
  let k := release_if (state_mutex pool) k in
  let k := release_if (active_tasks_mutex pool) k in
  let k := release_if (fst <$> worker_threads pool) k in
  k_release (pool_block pool) k.

(** [pool->worker_threads[i] = h]. *)
Definition store_worker (i : nat) (h : option handle)
    (p : ThreadPoolInternal) : ThreadPoolInternal :=
  set_worker_threads
    ((λ a, (a.1, <[i := h]> a.2)) <$> worker_threads p) p.

(** The loop creating the worker threads, from index [i] on, with
    [remaining] threads to go; [false] when a thread could not be
    created. *)
Fixpoint create_workers (remaining i : nat) (pool : ThreadPoolInternal)
    (k : kernel) : bool * ThreadPoolInternal * kernel :=
  match remaining with
  | O => (true, pool, k)
  | S r =>
      let '(h, k) := osThreadNew k in
      let pool := store_worker i h pool in
      match h with
      | None => (false, pool, k)
      | Some _ => create_workers r (S i) pool k
      end
  end.

(** [caller] is what osThreadGetId returns to the thread running the
    function. *)
Definition create_threadpool_internal (config : option ThreadPoolConfig)
    (caller : option handle) (k : kernel)
  : option ThreadPoolInternal * kernel :=
  match config with
  | None => (None, k)
  | Some cfg =>
      if bool_decide (cfg_thread_count cfg = 0%nat ∨ cfg_queue_size cfg = 0%nat
                      ∨ cfg_stack_size cfg = 0%nat)
      then (None, k)
      else
        let '(block, k) := pvPortMalloc k in
        match block with
        | None => (None, k)
        | Some addr =>
            let pool :=
              mkPool addr None None (cfg_thread_count cfg) THREADPOOL_RUNNING
                     None 0 None
                     (if cfg_low_power_mode cfg then caller else None)
                     (cfg_low_power_mode cfg) cfg in
            let '(sm, k) := osMutexNew k in
            let '(am, k) := osMutexNew k in
            let pool := set_mutexes sm am pool in
            if bool_decide (sm = None ∨ am = None)
            then (None, create_error pool k)
            else
              let '(q, k) := osMessageQueueNew k in
              let pool := set_task_queue q pool in
              if bool_decide (q = None) then (None, create_error pool k)
              else
                let '(arr, k) := pvPortMalloc k in
                let pool :=
                  set_worker_threads
                    ((λ a, (a, replicate (cfg_thread_count cfg) None)) <$> arr)
                    pool in
                if bool_decide (arr = None) then (None, create_error pool k)
                else
                  let '(ok, pool, k) :=
                    create_workers (cfg_thread_count cfg) 0 pool k in
                  if ok then (Some pool, k)
                  else (None, create_error pool k)
        end
  end.

(** *** The running pool *)

(** Where a worker thread stands in worker_thread_function. *)
Inductive worker_pc :=
| WaitTask                       (* blocked in osMessageQueueGet *)
| Claimed (task : Task)          (* task taken, counter not yet incremented *)
| Running (task : Task) (priority_changed : bool)
                                 (* counter incremented, task body running *)
| Finishing (task : Task)        (* task body returned, counter not yet
                                    decremented *)
| Exited.                        (* left the loop on a shutdown signal *)

Record worker := mkWorker {
  w_thread : handle;
  w_pc : worker_pc;
  w_default_priority : osPriority_t;
  w_priority : osPriority_t
}.

(** Kernel and task calls that leave a trace. *)
Inductive os_event :=
| EvThreadSetPriority (thread : handle) (prio : osPriority_t)
| EvTaskCall (thread : handle) (f : option fn_ptr) (a : Z)
| EvTaskReturn (thread : handle) (f : option fn_ptr)
| EvThreadExit (thread : handle)
| EvThreadSuspend (thread : handle)
| EvThreadResume (thread : handle).

#[global] Instance os_event_eq_dec : EqDecision os_event.
Proof. solve_decision. Defined.

(** The pool as the threads of the program share it: the kernel, the
    global [g_threadpool], the content of the task queue while the
    queue object exists, the worker threads by index, the events so far
    (oldest first), the suspended threads, and [script]: for each tick
    that a caller of the interface is going to spend blocked, the
    workers that take a step during that tick. *)
Record system := mkSystem {
  kern : kernel;
  g_threadpool : option ThreadPoolInternal;
  queue : option (MessageQueue Task);
  workers : list worker;
  events : list os_event;
  suspended : gset handle;
  script : list (list nat)
}.

Definition set_kern (k : kernel) (s : system) : system :=
  mkSystem k (g_threadpool s) (queue s) (workers s) (events s)
           (suspended s) (script s).

Definition set_pool (p : option ThreadPoolInternal) (s : system) : system :=
  mkSystem (kern s) p (queue s) (workers s) (events s) (suspended s)
           (script s).

Definition set_queue (q : option (MessageQueue Task)) (s : system) : system :=
  mkSystem (kern s) (g_threadpool s) q (workers s) (events s) (suspended s)
           (script s).

Definition set_workers (ws : list worker) (s : system) : system :=
  mkSystem (kern s) (g_threadpool s) (queue s) ws (events s) (suspended s)
           (script s).

Definition set_worker (i : nat) (w : worker) (s : system) : system :=
  set_workers (<[i := w]> (workers s)) s.

Definition emit (e : os_event) (s : system) : system :=
  mkSystem (kern s) (g_threadpool s) (queue s) (workers s) (events s ++ [e])
           (suspended s) (script s).

Definition set_script (sc : list (list nat)) (s : system) : system :=
  mkSystem (kern s) (g_threadpool s) (queue s) (workers s) (events s)
           (suspended s) sc.

(** Modelled from the spec: osThreadSuspend and osThreadResume. *)
Definition osThreadSuspend (h : handle) (s : system) : system :=
  let s := emit (EvThreadSuspend h) s in
  mkSystem (kern s) (g_threadpool s) (queue s) (workers s) (events s)
           ({[h]} ∪ suspended s) (script s).

Definition osThreadResume (h : handle) (s : system) : system :=
  let s := emit (EvThreadResume h) s in
  mkSystem (kern s) (g_threadpool s) (queue s) (workers s) (events s)
           (suspended s ∖ {[h]}) (script s).

Definition osThreadSetPriority (h : handle) (prio : osPriority_t)
    (s : system) : system :=
  emit (EvThreadSetPriority h prio) s.

Definition with_pc (pc : worker_pc) (w : worker) : worker :=
  mkWorker (w_thread w) pc (w_default_priority w) (w_priority w).

Definition with_priority (prio : osPriority_t) (w : worker) : worker :=
  mkWorker (w_thread w) (w_pc w) (w_default_priority w) prio.

(** One atomic step of worker [i] of worker_thread_function.  A worker
    that cannot move (empty queue, loop left, no pool) leaves the
    system as it is.  The two updates of [active_tasks] happen under
    [active_tasks_mutex], so each is one step together with what the
    code does before releasing the mutex. *)
Definition worker_step (i : nat) (s : system) : system :=
  match g_threadpool s, workers s !! i with
  | Some pool, Some w =>
      match w_pc w with
      | WaitTask =>
          match osMessageQueueGet_ready (queue s) with
          | None => s
          | Some (task, q) =>
              let s := set_queue (Some q) s in
              if is_shutdown_signal task
              then
                set_kern (k_release (w_thread w) (kern s))
                  (emit (EvThreadExit (w_thread w))
                     (set_worker i (with_pc Exited w) s))
              else set_worker i (with_pc (Claimed task) w) s
          end
      | Claimed task =>
          let pool := set_active_tasks (wrap32 (active_tasks pool + 1)) pool in
          let s := set_pool (Some pool) s in
          let priority_changed :=
            bool_decide (execution_priority task ≠ w_default_priority w) in
          let s :=
            if priority_changed
            then osThreadSetPriority (w_thread w) (execution_priority task) s
            else s in
          let w :=
            if priority_changed
            then with_priority (execution_priority task) w else w in
          emit (EvTaskCall (w_thread w) (function task) (arg task))
            (set_worker i (with_pc (Running task priority_changed) w) s)
      | Running task priority_changed =>
          let s := emit (EvTaskReturn (w_thread w) (function task)) s in
          let s :=
            if priority_changed
            then osThreadSetPriority (w_thread w) (w_default_priority w) s
            else s in
          let w :=
            if priority_changed
            then with_priority (w_default_priority w) w else w in
          set_worker i (with_pc (Finishing task) w) s
      | Finishing task =>
          let pool := set_active_tasks (wrap32 (active_tasks pool - 1)) pool in
          let s := set_pool (Some pool) s in
          let s :=
            match main_thread pool with
            | Some main =>
                if low_power_mode pool
                   && bool_decide (active_tasks pool = 0)
                   && bool_decide (state pool = THREADPOOL_RUNNING)
                then osThreadResume main s
                else s
            | None => s
            end in
          set_worker i (with_pc WaitTask w) s
      | Exited => s
      end
  | _, _ => s
  end.

(** The workers of [burst] step one after the other. *)
Definition run_workers (burst : list nat) (s : system) : system :=
  foldl (λ s i, worker_step i s) s burst.

(** One tick the caller spends blocked. *)
Definition tick (s : system) : system :=
  match script s with
  | [] => s
  | burst :: rest => run_workers burst (set_script rest s)
  end.

(** Modelled from the spec: osDelay(ticks). *)
Fixpoint osDelay (ticks : nat) (s : system) : system :=
  match ticks with
  | O => s
  | S n => osDelay n (tick s)
  end.

Definition queue_full (s : system) : bool :=
  match queue s with
  | Some q => mq_full q
  | None => false
  end.

(** Modelled from the spec: the caller of osMessageQueuePut blocked on
    a full queue, with [remaining] ticks of its timeout left. *)
Fixpoint put_blocked (remaining : nat) (msg : Task) (msg_prio : Z)
    (s : system) : osStatus_t * system :=
  match remaining with
  | O => (osErrorTimeout, s)
  | S r =>
      let s := tick s in
      if queue_full s then put_blocked r msg msg_prio s
      else
        let '(st, q) := osMessageQueuePut_nowait (queue s) msg msg_prio in
        (st, set_queue q s)
  end.

(** Modelled from the spec: osMessageQueuePut on the task queue: the
    message is stored at once when there is room; otherwise the caller
    waits for room for at most [timeout] ticks. *)
Definition osMessageQueuePut (msg : Task) (msg_prio : Z) (timeout : nat)
    (s : system) : osStatus_t * system :=
  if queue_full s
  then match timeout with
       | O => (osErrorResource, s)
       | S _ => put_blocked timeout msg msg_prio s
       end
  else
    let '(st, q) := osMessageQueuePut_nowait (queue s) msg msg_prio in
    (st, set_queue q s).

Definition convert_priority (priority : ThreadPoolPriority) : Z :=
  match priority with
  | THREADPOOL_PRIORITY_LOW => 0
  | THREADPOOL_PRIORITY_NORMAL => 1
  | THREADPOOL_PRIORITY_HIGH => 2
  | THREADPOOL_PRIORITY_CRITICAL => 3
  end.

(** *** destroy_threadpool_internal *)

Definition shutdown_task : Task :=
  mkTask None 0 true THREADPOOL_PRIORITY_LOW 0.

(** The loop [while (1)] that waits for the active tasks: the counter
    is read, and unless it is zero the caller sleeps ten ticks and
    reads again.  The loop has no bound of its own; [polls] bounds the
    number of sleeps looked at, and the result is [None] when the
    caller is still waiting after that many. *)
Fixpoint wait_for_active_tasks (polls : nat) (s : system) : option system :=
  match g_threadpool s with
  | None => Some s
  | Some pool =>
      if bool_decide (active_tasks pool = 0) then Some s
      else match polls with
           | O => None
           | S n => wait_for_active_tasks n (osDelay 10 s)
           end
  end.

(** The loop sending the shutdown signals, from index [i] on: one
    osMessageQueuePut(queue, &shutdown_task, 255, 100) for each worker
    thread handle that is not NULL; the status of the put is dropped. *)
Fixpoint signal_workers (remaining i : nat) (threads : list (option handle))
    (s : system) : system :=
  match remaining with
  | O => s
  | S r =>
      let s :=
        match threads !! i with
        | Some (Some _) => (osMessageQueuePut shutdown_task 255 100 s).2
        | _ => s
        end in
      signal_workers r (S i) threads s
  end.

(** The argument [pool] of the C function is the pointer held in
    [g_threadpool]. *)
Definition destroy_threadpool_internal (wait_for_tasks : bool) (polls : nat)
    (s : system) : option system :=
  match g_threadpool s with
  | None => Some s
  | Some pool =>
      (* set shutdown state *)
      let s :=
        if state_mutex pool is Some _
        then set_pool (Some (set_state THREADPOOL_SHUTTING_DOWN pool)) s
        else s in
      (* wait for active tasks if requested *)
      s ← (if wait_for_tasks && bool_decide (active_tasks_mutex pool ≠ None)
           then wait_for_active_tasks polls s else Some s);
      (* send shutdown signals to worker threads *)
      let s :=
        match task_queue pool, worker_threads pool with
        | Some _, Some (_, threads) =>
            osDelay 100 (signal_workers (thread_count pool) 0 threads s)
        | _, _ => s
        end in
      (* clean up resources *)
      let k := release_if (task_queue pool) (kern s) in
      let k := release_if (state_mutex pool) k in
      let k := release_if (active_tasks_mutex pool) k in
      let k := release_if (fst <$> worker_threads pool) k in
      let s := set_queue None (set_kern k s) in
      let s := set_pool (set_state THREADPOOL_STOPPED <$> g_threadpool s) s in
      Some (set_kern (k_release (pool_block pool) (kern s)) s)
  end.

(** *** Public interface *)

Definition core_thread_get_default_config : ThreadPoolConfig :=
  mkConfig THREADPOOL_THREAD_COUNT THREADPOOL_QUEUE_SIZE
           THREADPOOL_TASK_TIMEOUT (THREADPOOL_STACK_SIZE * 4) true
           osPriorityNormal.

(** The threads osThreadNew has started: each enters
    worker_thread_function and reads its own priority, the one of the
    thread attributes. *)
Definition started_workers (pool : ThreadPoolInternal) : list worker :=
  match worker_threads pool with
  | Some (_, threads) =>
      omap (λ h : option handle,
              (λ t, mkWorker t WaitTask
                             (cfg_default_thread_priority (config pool))
                             (cfg_default_thread_priority (config pool)))
              <$> h)
           threads
  | None => []
  end.

Definition core_thread_init_with_config (config : option ThreadPoolConfig)
    (caller : option handle) (s : system) : bool * system :=
  match config with
  | None => (false, s)
  | Some cfg =>
      if g_threadpool s is Some _ then (true, s)
      else
        let '(pool, k) := create_threadpool_internal config caller (kern s) in
        let s := set_kern k s in
        match pool with
        | None => (false, s)
        | Some p =>
            (true,
             set_workers (started_workers p)
               (set_queue (Some (mq_new (cfg_queue_size cfg)))
                  (set_pool (Some p) s)))
        end
  end.

Definition core_thread_init (caller : option handle) (s : system)
  : bool * system :=
  if g_threadpool s is Some _ then (true, s)
  else core_thread_init_with_config (Some core_thread_get_default_config)
         caller s.

Definition core_thread_deinit (wait_for_tasks : bool) (polls : nat)
    (s : system) : option system :=
  match g_threadpool s with
  | None => Some s
  | Some _ =>
      s ← destroy_threadpool_internal wait_for_tasks polls s;
      Some (set_pool None s)
  end.

Definition core_thread_add_task (function : option fn_ptr) (arg : Z)
    (queue_priority : ThreadPoolPriority) (execution_priority : osPriority_t)
    (timeout_ms : nat) (s : system) : ThreadPoolError * system :=
  match g_threadpool s with
  | None => (THREADPOOL_ERROR_NOT_INITIALIZED, s)
  | Some pool =>
      match function with
      | None => (THREADPOOL_ERROR_INVALID_ARG, s)
      | Some _ =>
          let state := state pool in
          if bool_decide (state ≠ THREADPOOL_RUNNING)
          then (THREADPOOL_ERROR_SHUTDOWN, s)
          else
            let task :=
              mkTask function arg false queue_priority execution_priority in
            let msg_queue_priority := convert_priority queue_priority in
            let '(status, s) :=
              osMessageQueuePut task msg_queue_priority timeout_ms s in
            match status with
            | osOK => (THREADPOOL_SUCCESS, s)
            | osErrorTimeout | osErrorResource =>
                (THREADPOOL_ERROR_QUEUE_FULL, s)
            | _ => (THREADPOOL_ERROR_QUEUE_FULL, s)
            end
      end
  end.

Definition core_thread_get_active_tasks_count (s : system) : Z :=
  match g_threadpool s with
  | None => 0
  | Some pool =>
      if active_tasks_mutex pool is Some _ then active_tasks pool else 0
  end.

Definition core_thread_get_active_tasks_count_wo_mutex (s : system) : Z :=
  match g_threadpool s with
  | None => 0
  | Some pool => active_tasks pool
  end.

Definition core_thread_is_idle (s : system) : bool :=
  bool_decide (core_thread_get_active_tasks_count s = 0).

Definition core_thread_wait_and_suspend (s : system) : system :=
  match g_threadpool s with
  | None => s
  | Some pool =>
      if negb (low_power_mode pool) then s
      else
        let has_active_tasks := bool_decide (0 < active_tasks pool) in
        match main_thread pool with
        | Some main => if has_active_tasks then osThreadSuspend main s else s
        | None => s
        end
  end.

Definition core_thread_get_state (s : system) : ThreadPoolState :=
  match g_threadpool s with
  | None => THREADPOOL_STOPPED
  | Some pool =>
      if state_mutex pool is Some _ then state pool
      else THREADPOOL_STOPPED
  end.

End ThreadPool.
(** * Reference definitions and sample inputs *)

Module Reference.
Import CMSIS AudioRecorder ThreadPool.

(** The clamp of the design document: [v] limited to [lo, hi]. *)
Definition clamp (v lo hi : Z) : Z := Z.max lo (Z.min v hi).

(** The design document's [convert]: arithmetic shift, then clamp. *)
Definition convert (v : Z) : Z := clamp (v ≫ 8) (-32768) 32767.

(** A driver that accepts every call except the listed ones. *)
Definition hal_failing (failing : list nat) : nat → HAL_StatusTypeDef :=
  λ n, if bool_decide (n ∈ failing) then HAL_ERROR else HAL_OK.

Definition idle_filter : DFSDM_Filter_HandleTypeDef := mkFilter None None.

(** A recorder in the middle of a recording whose first frame holds the
    extreme samples 0x7FFFFFFF (left) and 0x80000000 (right). *)
Definition extreme_recorder (s : audio_buffer_state_t) : audio_recorder_t :=
  mkRecorder
    (mkAudioData
       (<[0%nat := int32_of_bits 0x7FFFFFFF]> (replicate AUDIO_BUFFER_SIZE 0))
       (<[0%nat := int32_of_bits 0x80000000]> (replicate AUDIO_BUFFER_SIZE 0))
       (replicate (AUDIO_BUFFER_SIZE * 2) 0) s 0)
    (Some (mkSem 1 0)) (Some (mq_new 10)) true.

Definition extreme_world : world :=
  mkWorld (extreme_recorder AUDIO_BUFFER_HALF_FULL) idle_filter idle_filter
          [] [] [] (hal_failing []).

(** A recorder that has been initialised and is not recording, on a
    driver that rejects the calls listed in [failing]. *)
Definition stopped_world (failing : list nat) : world :=
  mkWorld
    (mkRecorder
       (mkAudioData (replicate AUDIO_BUFFER_SIZE 0)
                    (replicate AUDIO_BUFFER_SIZE 0)
                    (replicate (AUDIO_BUFFER_SIZE * 2) 0)
                    AUDIO_BUFFER_EMPTY 0)
       (Some (mkSem 1 0)) (Some (mq_new 10)) false)
    idle_filter idle_filter [] [] [] (hal_failing failing).

(** What a put of [s] at priority 0 leaves in the event queue [q]: the
    queue as it was when it is full, one more entry otherwise. *)
Definition event_handed_over (s : audio_buffer_state_t)
    (q q' : option (MessageQueue audio_buffer_state_t)) : Prop :=
  match q, q' with
  | None, None => True
  | Some mq, Some mq' =>
      mq_capacity mq' = mq_capacity mq ∧
      if mq_full mq then mq_items mq' = mq_items mq
      else mq_items mq' = mq_insert 0 s (mq_items mq) ∧
           length (mq_items mq') = S (length (mq_items mq))
  | _, _ => False
  end.

(** The four driver calls of a start attempt, in the order the code
    issues them. *)
Definition start_calls : list hal_call :=
  [ CallConfigRegChannel Filter0 DFSDM_CHANNEL_0;
    CallConfigRegChannel Filter1 DFSDM_CHANNEL_3;
    CallRegularStart_DMA Filter1 RightBuffer AUDIO_BUFFER_SIZE;
    CallRegularStart_DMA Filter0 LeftBuffer AUDIO_BUFFER_SIZE ].

(** *** Thread pool *)

(** A kernel with nothing alive that grants every creation request
    except the listed ones. *)
Definition fresh_kernel (refused : list nat) : kernel :=
  mkKernel ∅ 1%nat 0%nat (λ n, negb (bool_decide (n ∈ refused))).

(** The program before core_thread_init: [g_threadpool] is NULL. *)
Definition boot (k : kernel) (sc : list (list nat)) : system :=
  mkSystem k None None [] [] ∅ sc.

(** Two workers and room for one queued task. *)
Definition small_config : ThreadPoolConfig :=
  mkConfig 2%nat 1%nat 100%nat 512%nat false osPriorityNormal.

Definition low_power_config : ThreadPoolConfig :=
  mkConfig 2%nat 4%nat 100%nat 512%nat true osPriorityNormal.

(** What the threads of the program can do to a pool between its
    construction and the release of its resources: a worker takes a
    step; some thread submits a task, calls init again or calls
    wait_and_suspend; the thread tearing the pool down marks it as
    shutting down, sends the shutdown signals, or sleeps. *)
Inductive pool_op :=
| OpWorkerStep (i : nat)
| OpAddTask (function : option fn_ptr) (arg : Z)
            (queue_priority : ThreadPoolPriority)
            (execution_priority : osPriority_t) (timeout : nat)
| OpInit (config : option ThreadPoolConfig) (caller : option handle)
| OpWaitAndSuspend
| OpShutdownBegin
| OpShutdownSignal
| OpDelay (ticks : nat).

Definition apply_op (op : pool_op) (s : system) : system :=
  match op with
  | OpWorkerStep i => worker_step i s
  | OpAddTask f a qp ep timeout => (core_thread_add_task f a qp ep timeout s).2
  | OpInit config caller => (core_thread_init_with_config config caller s).2
  | OpWaitAndSuspend => core_thread_wait_and_suspend s
  | OpShutdownBegin =>
      match g_threadpool s with
      | Some pool =>
          if state_mutex pool is Some _
          then set_pool (Some (set_state THREADPOOL_SHUTTING_DOWN pool)) s
          else s
      | None => s
      end
  | OpShutdownSignal =>
      match g_threadpool s with
      | Some pool =>
          match task_queue pool, worker_threads pool with
          | Some _, Some (_, threads) =>
              signal_workers (thread_count pool) 0 threads s
          | _, _ => s
          end
      | None => s
      end
  | OpDelay ticks => osDelay ticks s
  end.

Definition run_ops (ops : list pool_op) (s : system) : system :=
  foldl (λ s op, apply_op op s) s ops.

(** The states of a pool that was constructed, with a configuration in
    the range of its C types, by the first init of the program. *)
Definition reachable (s : system) : Prop :=
  ∃ cfg caller k sc s0 ops,
    config_in_range cfg ∧
    core_thread_init_with_config (Some cfg) caller (boot k sc) = (true, s0) ∧
    s = run_ops ops s0.

(** A worker between the increment and the decrement of the counter. *)
Definition in_task_body (w : worker) : bool :=
  match w_pc w with
  | Running _ _ | Finishing _ => true
  | _ => false
  end.

Fixpoint count_in_task_body (ws : list worker) : nat :=
  match ws with
  | [] => 0
  | w :: rest => (if in_task_body w then 1 else 0) + count_in_task_body rest
  end.

(** The link between the counter and the worker threads. *)
Definition pool_invariant (s : system) : Prop :=
  ∃ pool,
    g_threadpool s = Some pool ∧
    active_tasks pool = Z.of_nat (count_in_task_body (workers s)) ∧
    length (workers s) = thread_count pool ∧
    Z.of_nat (thread_count pool) < 2 ^ 32 ∧
    is_Some (queue s).

(** The number of osThreadResume calls in a trace. *)
Fixpoint count_resumes (evs : list os_event) : nat :=
  match evs with
  | [] => 0
  | EvThreadResume _ :: rest => S (count_resumes rest)
  | _ :: rest => count_resumes rest
  end.

(** The next step of worker [i] is the decrement that takes the
    counter from one to zero. *)
Definition reaches_zero (i : nat) (s : system) : bool :=
  match g_threadpool s, workers s !! i with
  | Some pool, Some w =>
      match w_pc w with
      | Finishing _ => bool_decide (active_tasks pool = 1)
      | _ => false
      end
  | _, _ => false
  end.

(** The number of times the counter goes from one to zero while the
    workers of [burst] step one after the other. *)
Fixpoint zero_transitions (burst : list nat) (s : system) : nat :=
  match burst with
  | [] => 0
  | i :: rest =>
      (if reaches_zero i s then 1 else 0)
      + zero_transitions rest (worker_step i s)
  end.

(** The small pool with both workers inside a task body that does not
    return: two tasks were submitted, and each worker took one. *)
Definition occupied_ops : list pool_op :=
  [ OpAddTask (Some 1%nat) 0 THREADPOOL_PRIORITY_LOW osPriorityNormal 0;
    OpWorkerStep 0; OpWorkerStep 0;
    OpAddTask (Some 2%nat) 0 THREADPOOL_PRIORITY_LOW osPriorityNormal 0;
    OpWorkerStep 1; OpWorkerStep 1 ]%nat.

Definition occupied_system : system :=
  run_ops occupied_ops
    (core_thread_init_with_config (Some small_config) (Some 100%nat)
       (boot (fresh_kernel []) [])).2.

(** The system once [msg] has been stored in the task queue. *)
Definition stored (msg : Task) (msg_prio : Z) (s : system) : system :=
  set_queue
    ((λ q, mkQueue (mq_capacity q) (mq_insert msg_prio msg (mq_items q)))
       <$> queue s) s.






(** A pool in low-power mode, created by thread 100, with each of its
    two workers inside a task body. *)
Definition low_power_system : system :=
  run_ops occupied_ops
    (core_thread_init_with_config (Some low_power_config) (Some 100%nat)
       (boot (fresh_kernel []) [])).2.

End Reference.

(** * Properties *)

(** ** Sample conversion and interleaving *)

Section Conversion.
Import CMSIS AudioRecorder Reference.

Lemma saturate16_clamp (s : Z) : saturate16 s = clamp s (-32768) 32767.
Proof.
  unfold saturate16, clamp.
  destruct (32767 <? s) eqn:Hhi; [apply Z.ltb_lt in Hhi; lia|].
  apply Z.ltb_ge in Hhi.
  destruct (s <? -32768) eqn:Hlo;
    [apply Z.ltb_lt in Hlo | apply Z.ltb_ge in Hlo]; lia.
Qed.

Lemma clamp_range (v lo hi : Z) : lo ≤ hi → lo ≤ clamp v lo hi ≤ hi.
Proof. unfold clamp. lia. Qed.

Lemma cast_int16_id (z : Z) : -32768 ≤ z ≤ 32767 → cast_int16 z = z.
Proof.
  intros Hz. unfold cast_int16.
  rewrite Z.mod_small by lia. lia.
Qed.

Lemma stored_sample (v : Z) : cast_int16 (saturate16 (v ≫ 8)) = convert v.
Proof.
  rewrite saturate16_clamp. apply cast_int16_id.
  apply clamp_range. lia.
Qed.

Lemma convert_sample_spec (i : nat) (d : audio_data_t) (l r : Z) :
  left_buffer d !! i = Some l →
  right_buffer d !! i = Some r →
  (2 * i + 1 < length (playback_buffer d))%nat →
  convert_sample i d =
    Some (with_playback
            (<[(2 * i + 1)%nat := convert r]>
               (<[(2 * i)%nat := convert l]> (playback_buffer d))) d).
Proof.
  intros Hl Hr Hlen. unfold convert_sample.
  rewrite Hl, Hr. simpl.
  rewrite !stored_sample.
  case_guard; [done | lia].
Qed.

Lemma convert_from_spec (count : nat) :
  ∀ (i : nat) (d : audio_data_t),
    (i + count ≤ length (left_buffer d))%nat →
    (i + count ≤ length (right_buffer d))%nat →
    (2 * (i + count) ≤ length (playback_buffer d))%nat →
    ∃ d',
      convert_from count i d = Some d' ∧
      left_buffer d' = left_buffer d ∧
      right_buffer d' = right_buffer d ∧
      buffer_state d' = buffer_state d ∧
      length (playback_buffer d') = length (playback_buffer d) ∧
      (∀ k, (k < 2 * i)%nat →
            playback_buffer d' !! k = playback_buffer d !! k) ∧
      (∀ j, (i ≤ j < i + count)%nat →
            ∃ l r, left_buffer d !! j = Some l ∧
                   right_buffer d !! j = Some r ∧
                   playback_buffer d' !! (2 * j)%nat = Some (convert l) ∧
                   playback_buffer d' !! (2 * j + 1)%nat = Some (convert r)).
Proof.
  induction count as [|c IH]; intros i d Hl Hr Hp.
  - exists d. simpl. repeat split; try done. intros j Hj. lia.
  - destruct (lookup_lt_is_Some_2 (left_buffer d) i) as [l Hli]; [lia|].
    destruct (lookup_lt_is_Some_2 (right_buffer d) i) as [r Hri]; [lia|].
    simpl. rewrite (convert_sample_spec i d l r) by (done || lia). simpl.
    set (d1 := with_playback _ d).
    assert (Hlen1 : length (playback_buffer d1) = length (playback_buffer d)).
    { unfold d1. simpl. by rewrite !length_insert. }
    destruct (IH (S i) d1) as (d' & Hrun & Hl' & Hr' & Hs' & Hlen' & Hlow & Hout).
    { simpl. lia. } { simpl. lia. } { rewrite Hlen1. lia. }
    exists d'. split; [done|].
    split; [by rewrite Hl'|]. split; [by rewrite Hr'|].
    split; [by rewrite Hs'|]. split; [by rewrite Hlen', Hlen1|].
    split.
    + intros k Hk. rewrite Hlow by lia. unfold d1. simpl.
      rewrite !list_lookup_insert_ne by lia. done.
    + intros j Hj. destruct (decide (j = i)) as [->|Hne].
      * exists l, r. split; [done|]. split; [done|].
        rewrite !Hlow by lia. unfold d1. simpl. split.
        -- rewrite list_lookup_insert_ne by lia.
           apply list_lookup_insert_eq. lia.
        -- apply list_lookup_insert_eq. rewrite length_insert. lia.
      * destruct (Hout j) as (l' & r' & ? & ? & ? & ?); [lia|].
        exists l', r'. done.
Qed.

Lemma half_buffer_le : (AUDIO_BUFFER_SIZE / 2 ≤ AUDIO_BUFFER_SIZE)%nat.
Proof. apply Nat.Div0.div_le_upper_bound. lia. Qed.

Lemma selected_range_bounds (s : audio_buffer_state_t) :
  (fst (selected_range s) ≤ snd (selected_range s) ≤ AUDIO_BUFFER_SIZE)%nat.
Proof.
  pose proof half_buffer_le. unfold selected_range.
  case_decide; cbn [fst snd]; lia.
Qed.

(** C1.  A run of the processor task over the half of the buffers it
    selects returns, leaves both raw buffers as they were, and for every
    index [i] of that half stores [clamp (left[i] >> 8, -32768, 32767)] at
    [2*i] and [clamp (right[i] >> 8, -32768, 32767)] at [2*i+1] of the
    interleaved output, whatever the raw samples are; the raw pair
    (0x7FFFFFFF, 0x80000000) is stored as (32767, -32768). *)
Theorem processor_converts_and_interleaves (w : world) :
  let d := audio_data (g_audio_recorder w) in
  let start_index := fst (selected_range (buffer_state d)) in
  let end_index := snd (selected_range (buffer_state d)) in
  audio_data_wf d →
  is_recording (g_audio_recorder w) = true →
  ∃ w',
    audio_processor_run w = Some w' ∧
    let d' := audio_data (g_audio_recorder w') in
    left_buffer d' = left_buffer d ∧
    right_buffer d' = right_buffer d ∧
    (∀ i, (start_index ≤ i < end_index)%nat →
       ∃ l r,
         left_buffer d !! i = Some l ∧
         right_buffer d !! i = Some r ∧
         playback_buffer d' !! (2 * i)%nat = Some (clamp (l ≫ 8) (-32768) 32767) ∧
         playback_buffer d' !! (2 * i + 1)%nat = Some (clamp (r ≫ 8) (-32768) 32767)) ∧
    (∀ i, (start_index ≤ i < end_index)%nat →
       left_buffer d !! i = Some (int32_of_bits 0x7FFFFFFF) →
       right_buffer d !! i = Some (int32_of_bits 0x80000000) →
       playback_buffer d' !! (2 * i)%nat = Some 32767 ∧
       playback_buffer d' !! (2 * i + 1)%nat = Some (-32768)).
Proof.
  intros d start_index end_index (Hl & Hr & Hp) Hrec.
  pose proof (selected_range_bounds (buffer_state d)) as Hb.
  fold start_index end_index in Hb.
  destruct (convert_from_spec (end_index - start_index) start_index d)
    as (d' & Hrun & Hl' & Hr' & _ & _ & _ & Hout); [lia..|].
  assert (Hall : ∀ i, (start_index ≤ i < end_index)%nat →
            ∃ l r, left_buffer d !! i = Some l ∧ right_buffer d !! i = Some r ∧
                   playback_buffer d' !! (2 * i)%nat = Some (convert l) ∧
                   playback_buffer d' !! (2 * i + 1)%nat = Some (convert r)).
  { intros i Hi. apply Hout. lia. }
  assert (Hext : ∀ i, (start_index ≤ i < end_index)%nat →
            left_buffer d !! i = Some (int32_of_bits 0x7FFFFFFF) →
            right_buffer d !! i = Some (int32_of_bits 0x80000000) →
            playback_buffer d' !! (2 * i)%nat = Some 32767 ∧
            playback_buffer d' !! (2 * i + 1)%nat = Some (-32768)).
  { intros i Hi Hli Hri.
    destruct (Hall i Hi) as (l & r & Hl1 & Hr1 & Ho1 & Ho2).
    rewrite Ho1, Ho2. rewrite Hli in Hl1. rewrite Hri in Hr1.
    injection Hl1 as <-. injection Hr1 as <-. done. }
  unfold audio_processor_run. fold d. rewrite Hrec. cbn [negb].
  rewrite (surjective_pairing (selected_range (buffer_state d))).
  fold start_index end_index.
  unfold convert_range. rewrite Hrun.
  eexists. split; [reflexivity|].
  exact (conj Hl' (conj Hr' (conj Hall Hext))).
Qed.

Lemma processor_converts_and_interleaves_witness :
  ∃ w',
    audio_processor_run extreme_world = Some w' ∧
    playback_buffer (audio_data (g_audio_recorder w')) !! 0%nat = Some 32767 ∧
    playback_buffer (audio_data (g_audio_recorder w')) !! 1%nat = Some (-32768).
Proof.
  destruct (processor_converts_and_interleaves extreme_world)
    as (w' & Hrun & _ & _ & _ & Hext).
  - repeat split; vm_compute; reflexivity.
  - reflexivity.
  - exists w'. split; [exact Hrun|].
    apply (Hext 0%nat); [vm_compute; lia | reflexivity | reflexivity].
Defined.

End Conversion.

(** ** Start, stop and the interrupt callbacks *)

Section Pipeline.
Import CMSIS AudioRecorder Reference.

Lemma mq_insert_length {A} (prio : Z) (msg : A) (items : list (Z * A)) :
  length (mq_insert prio msg items) = S (length items).
Proof.
  induction items as [|[p m] rest IH]; simpl; [done|].
  destruct (p <? prio); simpl; by rewrite ?IH.
Qed.

Lemma put_nowait_handed_over (s : audio_buffer_state_t)
    (q : option (MessageQueue audio_buffer_state_t)) :
  event_handed_over s q (snd (osMessageQueuePut_nowait q s 0)).
Proof.
  unfold event_handed_over, osMessageQueuePut_nowait.
  destruct q as [mq|]; [|done].
  destruct (mq_full mq) eqn:Hfull; cbn [snd mq_capacity mq_items];
    rewrite ?Hfull; [done|].
  by rewrite mq_insert_length.
Qed.

(** C9.  Start on a recorder that is recording, and stop on a recorder
    that is not, change nothing but the log: the recorder instance with
    its buffers and flag, both filter handles, and the lists of driver
    and kernel calls are as before. *)
Theorem start_stop_noop (w : world) :
  (is_recording (g_audio_recorder w) = true →
   let w' := snd (audio_recorder_start w) in
   g_audio_recorder w' = g_audio_recorder w ∧
   hal_trace w' = hal_trace w ∧
   hdfsdm1_filter0 w' = hdfsdm1_filter0 w ∧
   hdfsdm1_filter1 w' = hdfsdm1_filter1 w ∧
   os_trace w' = os_trace w) ∧
  (is_recording (g_audio_recorder w) = false →
   let w' := snd (audio_recorder_stop w) in
   g_audio_recorder w' = g_audio_recorder w ∧
   hal_trace w' = hal_trace w ∧
   hdfsdm1_filter0 w' = hdfsdm1_filter0 w ∧
   hdfsdm1_filter1 w' = hdfsdm1_filter1 w ∧
   os_trace w' = os_trace w).
Proof.
  split; intros Hrec; unfold audio_recorder_start, audio_recorder_stop;
    unfold mbind, rec_bind, get_recorder; rewrite Hrec; done.
Qed.

Lemma start_stop_noop_witness :
  g_audio_recorder (snd (audio_recorder_start extreme_world))
    = g_audio_recorder extreme_world ∧
  hal_trace (snd (audio_recorder_stop (stopped_world []))) = [].
Proof.
  split.
  - apply (proj1 (start_stop_noop extreme_world)). reflexivity.
  - apply (proj2 (start_stop_noop (stopped_world []))). reflexivity.
Defined.

(** C7.  Each interrupt callback leaves [buffer_state] at its own value
    and issues one osMessageQueuePut of that value with a zero timeout:
    the event queue gains that one entry, or, being full, stays as it
    was; nothing else of the world changes. *)
Theorem callbacks_hand_over_at_most_once (w : world) :
  let r := g_audio_recorder w in
  let post (s : audio_buffer_state_t) (w' : world) :=
    let r' := g_audio_recorder w' in
    buffer_state (audio_data r') = s ∧
    os_trace w' = os_trace w ++ [CallMessageQueuePut s 0 0] ∧
    event_handed_over s (audio_queue r) (audio_queue r') ∧
    left_buffer (audio_data r') = left_buffer (audio_data r) ∧
    right_buffer (audio_data r') = right_buffer (audio_data r) ∧
    playback_buffer (audio_data r') = playback_buffer (audio_data r) ∧
    audio_semaphore r' = audio_semaphore r ∧
    is_recording r' = is_recording r ∧
    hal_trace w' = hal_trace w ∧
    logged w' = logged w in
  post AUDIO_BUFFER_HALF_FULL (snd (audio_recorder_half_complete_callback w)) ∧
  post AUDIO_BUFFER_FULL (snd (audio_recorder_full_complete_callback w)).
Proof.
  intros r post.
  assert (Hpost : ∀ s,
    post s (snd ((set_buffer_state s;; audio_queue_put s 0;; mret tt) w))).
  { intros s. unfold post. subst r.
    pose proof (put_nowait_handed_over s (audio_queue (g_audio_recorder w)))
      as Hq.
    cbv [mbind rec_bind mret rec_ret set_buffer_state get_recorder
         set_recorder audio_queue_put g_audio_recorder audio_queue].
    destruct w as [[d sem q rec] f0 f1 ht ot lg hr].
    cbn [g_audio_recorder audio_queue] in Hq.
    destruct (osMessageQueuePut_nowait q s 0) as [st q'].
    done. }
  split; apply Hpost.
Qed.

End Pipeline.

Section StartFailure.
Import CMSIS AudioRecorder Reference.

Lemma run_bind {A B} (m : Rec A) (k : A → Rec B) (w : world) :
  (m ≫= k) w = k (m w).1 (m w).2.
Proof. unfold mbind, rec_bind. by destruct (m w). Qed.

Lemma hal_invoke_ok c f effect w :
  hal_result w (length (hal_trace w)) = HAL_OK →
  hal_invoke c f effect w =
    (HAL_OK, set_filter f (effect (get_filter f w)) (record_call c w)).
Proof. intros H. unfold hal_invoke. by rewrite H. Qed.

Lemma hal_invoke_failed c f effect w :
  hal_result w (length (hal_trace w)) ≠ HAL_OK →
  (hal_invoke c f effect w).1 ≠ HAL_OK ∧
  (hal_invoke c f effect w).2 = record_call c w.
Proof.
  intros H. unfold hal_invoke.
  by destruct (hal_result w (length (hal_trace w))).
Qed.

Ltac world_simpl :=
  cbn [fst snd LOG get_recorder set_recorder set_filter get_filter
       record_call g_audio_recorder hdfsdm1_filter0 hdfsdm1_filter1
       hal_trace os_trace logged hal_result regular_channel dma_running].

Ltac hal_status H :=
  world_simpl; rewrite ?length_app; cbn [length]; exact H.

(** The driver call at the head of the program succeeds. *)
Ltac hal_step_ok H :=
  rewrite run_bind;
  rewrite hal_invoke_ok by hal_status H;
  world_simpl;
  destruct (decide (HAL_OK ≠ HAL_OK)) as [?|_]; [done|].

(** The driver call at the head of the program fails. *)
Ltac hal_step_failed H :=
  rewrite run_bind;
  match goal with
  | |- context [hal_invoke ?c ?f ?e ?w] =>
      let Hne := fresh in
      let Hw := fresh in
      destruct (hal_invoke_failed c f e w) as [Hne Hw]; [hal_status H|];
      rewrite Hw;
      destruct (decide ((hal_invoke c f e w).1 ≠ HAL_OK)) as [_|?]; [|done];
      clear Hne Hw; world_simpl
  end.

Lemma failed_start_world (r : audio_recorder_t)
    (f0 f1 : DFSDM_Filter_HandleTypeDef) ht ot lg hr (k : nat) :
  let n := length ht in
  is_recording r = false →
  (k < 4)%nat →
  (∀ j, (j < k)%nat → hr (n + j)%nat = HAL_OK) →
  hr (n + k)%nat ≠ HAL_OK →
  ∃ f0' f1' msg,
    (audio_recorder_start (mkWorld r f0 f1 ht ot lg hr)).2 =
      mkWorld r f0' f1' (ht ++ take (S k) start_calls) ot
        ((LOG_ERROR, msg) ::
         (LOG_INFO, "Starting audio recording..."%string) :: lg) hr ∧
    (k = 3%nat → dma_running f1' = Some (RightBuffer, AUDIO_BUFFER_SIZE)).
Proof.
  intros n Hrec Hk Hok Hfail.
  assert (H0 : (0 < k)%nat → hr n = HAL_OK).
  { intros ?. rewrite <- (Nat.add_0_r n). by apply Hok. }
  assert (H1 : (1 < k)%nat → hr (n + 1)%nat = HAL_OK) by (intros ?; by apply Hok).
  assert (H2 : (2 < k)%nat → hr (n + 1 + 1)%nat = HAL_OK).
  { intros ?. rewrite <- Nat.add_assoc. by apply Hok. }
  unfold audio_recorder_start, HAL_DFSDM_FilterConfigRegChannel,
    HAL_DFSDM_FilterRegularStart_DMA.
  rewrite run_bind. world_simpl. rewrite Hrec.
  rewrite run_bind. world_simpl.
  destruct k as [|[|[|[|k]]]]; [| | | |lia].
  - rewrite Nat.add_0_r in Hfail.
    hal_step_failed Hfail.
    eexists _, _, _. split; [reflexivity | lia].
  - hal_step_ok (H0 ltac:(lia)).
    hal_step_failed Hfail.
    rewrite <- !app_assoc. eexists _, _, _. split; [reflexivity | lia].
  - hal_step_ok (H0 ltac:(lia)).
    hal_step_ok (H1 ltac:(lia)).
    replace (n + 2)%nat with (n + 1 + 1)%nat in Hfail by lia.
    hal_step_failed Hfail.
    rewrite <- !app_assoc. eexists _, _, _. split; [reflexivity | lia].
  - hal_step_ok (H0 ltac:(lia)).
    hal_step_ok (H1 ltac:(lia)).
    hal_step_ok (H2 ltac:(lia)).
    replace (n + 3)%nat with (n + 1 + 1 + 1)%nat in Hfail by lia.
    hal_step_failed Hfail.
    rewrite <- !app_assoc. eexists _, _, _. split; [reflexivity | done].
Qed.

(** C6.  A start attempt on a recorder that is not recording, in which
    the [k]-th of the four driver calls (configure left, configure
    right, start right, start left) is the first to fail, stops right
    there: no further driver call is issued, in particular no stop of a
    channel that was started, an error is logged, and [is_recording]
    stays false; when the failing call is the start of the left channel,
    the right channel's transfer is still running afterwards. *)
Theorem failed_start_aborts (w : world) (k : nat) :
  let n := length (hal_trace w) in
  is_recording (g_audio_recorder w) = false →
  (k < 4)%nat →
  (∀ j, (j < k)%nat → hal_result w (n + j)%nat = HAL_OK) →
  hal_result w (n + k)%nat ≠ HAL_OK →
  let w' := snd (audio_recorder_start w) in
  is_recording (g_audio_recorder w') = false ∧
  (∃ msg, logged w' =
     (LOG_ERROR, msg) :: (LOG_INFO, "Starting audio recording..."%string)
       :: logged w) ∧
  hal_trace w' = hal_trace w ++ take (S k) start_calls ∧
  (k = 3%nat →
   dma_running (hdfsdm1_filter1 w') = Some (RightBuffer, AUDIO_BUFFER_SIZE)).
Proof.
  intros n Hrec Hk Hok Hfail w'. subst n w'.
  destruct w as [r f0 f1 ht ot lg hr].
  cbn [hal_trace hal_result g_audio_recorder logged] in *.
  destruct (failed_start_world r f0 f1 ht ot lg hr k Hrec Hk Hok Hfail)
    as (f0' & f1' & msg & -> & Hdma).
  cbn [hal_trace hal_result g_audio_recorder logged hdfsdm1_filter1].
  split; [done|]. split; [by exists msg|]. done.
Qed.

Lemma failed_start_aborts_witness :
  let w' := snd (audio_recorder_start (stopped_world [3%nat])) in
  is_recording (g_audio_recorder w') = false ∧
  dma_running (hdfsdm1_filter1 w') = Some (RightBuffer, AUDIO_BUFFER_SIZE).
Proof.
  destruct (failed_start_aborts (stopped_world [3%nat]) 3)
    as (Hrec & _ & _ & Hdma).
  - reflexivity.
  - lia.
  - intros j Hj. destruct j as [|[|[|j]]]; [reflexivity..|lia].
  - vm_compute. discriminate.
  - split; [exact Hrec | exact (Hdma eq_refl)].
Defined.

End StartFailure.

(** ** Thread pool *)

Section PoolQueries.
Import CMSIS ThreadPool Reference.

(** C10.  While no pool instance exists, the queries answer with
    their defaults: both active-task counts are 0, the pool is idle,
    its state is STOPPED, and wait_and_suspend changes nothing, so it
    suspends no thread.  That is the situation before the first init
    and again after every deinit that returns. *)
Theorem queries_without_pool (s : system) :
  (g_threadpool s = None →
   core_thread_get_active_tasks_count s = 0 ∧
   core_thread_get_active_tasks_count_wo_mutex s = 0 ∧
   core_thread_is_idle s = true ∧
   core_thread_get_state s = THREADPOOL_STOPPED ∧
   core_thread_wait_and_suspend s = s) ∧
  (∀ k sc, g_threadpool (boot k sc) = None) ∧
  (∀ wait_for_tasks polls s',
     core_thread_deinit wait_for_tasks polls s = Some s' →
     g_threadpool s' = None).
Proof.
  split; [|split].
  - intros Hnone.
    unfold core_thread_is_idle, core_thread_get_active_tasks_count,
      core_thread_get_active_tasks_count_wo_mutex, core_thread_get_state,
      core_thread_wait_and_suspend.
    rewrite Hnone. done.
  - done.
  - intros wait_for_tasks polls s'. unfold core_thread_deinit.
    destruct (g_threadpool s) as [pool|] eqn:Hpool.
    + destruct (destroy_threadpool_internal _ _ s) as [s1|]; simpl; [|done].
      intros [= <-]. done.
    + intros [= <-]. done.
Qed.

Lemma queries_without_pool_witness :
  core_thread_get_state (boot (fresh_kernel []) []) = THREADPOOL_STOPPED ∧
  (∀ s', core_thread_deinit false 0 occupied_system = Some s' →
         core_thread_is_idle s' = true).
Proof.
  split.
  - apply (proj1 (queries_without_pool (boot (fresh_kernel []) []))).
    reflexivity.
  - intros s' Hs'.
    apply (proj1 (queries_without_pool s')).
    exact (proj2 (proj2 (queries_without_pool occupied_system)) _ _ _ Hs').
Defined.

End PoolQueries.

Section Construction.
Import CMSIS ThreadPool Reference.

(** C4 (the code departs from it).  A pool of two workers is built on a
    kernel that refuses the seventh creation request, the one for the
    second worker thread.  Construction reports failure, and the
    mutexes, the queue, the thread array and the pool block are
    released, but the first worker thread, created under handle 6,
    is still alive. *)
Theorem create_failure_leaks_worker :
  let '(pool, k) :=
    create_threadpool_internal (Some small_config) None (fresh_kernel [6%nat])
  in
  pool = None ∧ map_to_list (k_live k) = [(6%nat, KThread)].
Proof. vm_compute. done. Qed.

End Construction.

Section Submission.
Import CMSIS ThreadPool Reference.
Local Open Scope nat_scope.
Local Open Scope Z_scope.

Lemma worker_step_queue_is_Some (i : nat) (s : system) :
  is_Some (queue s) → is_Some (queue (worker_step i s)).
Proof.
  intros Hq. unfold worker_step.
  destruct (g_threadpool s) as [pool|]; [|done].
  destruct (workers s !! i) as [w|]; [|done].
  destruct (w_pc w) as [|task|task changed|task|]; try done.
  - destruct (osMessageQueueGet_ready (queue s)) as [[task q]|]; [|done].
    by destruct (is_shutdown_signal task).
  - cbn. by destruct (bool_decide _).
  - cbn. by destruct changed.
  - cbn. destruct (main_thread _); [|done].
    by destruct (_ && _).
Qed.

Lemma run_workers_queue_is_Some (burst : list nat) (s : system) :
  is_Some (queue s) → is_Some (queue (run_workers burst s)).
Proof.
  revert s. induction burst as [|i burst IH]; intros s Hq; [done|].
  apply IH. by apply worker_step_queue_is_Some.
Qed.

Lemma tick_queue_is_Some (s : system) :
  is_Some (queue s) → is_Some (queue (tick s)).
Proof.
  intros Hq. unfold tick. destruct (script s) as [|burst rest]; [done|].
  by apply run_workers_queue_is_Some.
Qed.

Lemma osDelay_queue_is_Some (n : nat) (s : system) :
  is_Some (queue s) → is_Some (queue (osDelay n s)).
Proof.
  revert s. induction n as [|n IH]; intros s Hq; [done|].
  apply IH. by apply tick_queue_is_Some.
Qed.

Lemma put_with_room (msg : Task) (msg_prio : Z) (s : system) :
  is_Some (queue s) → queue_full s = false →
  (let '(st, q) := osMessageQueuePut_nowait (queue s) msg msg_prio in
   (st, set_queue q s)) = (osOK, stored msg msg_prio s).
Proof.
  intros [q Hq] Hfull. unfold queue_full, stored in *. rewrite Hq in *.
  cbn. by rewrite Hfull.
Qed.

Lemma put_blocked_timeout (msg : Task) (msg_prio : Z) (remaining : nat) :
  ∀ s,
    (∀ n, (1 ≤ n ≤ remaining)%nat → queue_full (osDelay n s) = true) →
    put_blocked remaining msg msg_prio s = (osErrorTimeout, osDelay remaining s).
Proof.
  induction remaining as [|r IH]; intros s Hfull; [done|].
  pose proof (Hfull 1%nat ltac:(lia)) as H1. cbn in *. rewrite H1.
  apply IH. intros n Hn. apply (Hfull (S n)). lia.
Qed.

Lemma put_blocked_room (msg : Task) (msg_prio : Z) (remaining : nat) :
  ∀ s n,
    is_Some (queue s) →
    (1 ≤ n ≤ remaining)%nat →
    queue_full (osDelay n s) = false →
    (∀ m, (1 ≤ m < n)%nat → queue_full (osDelay m s) = true) →
    put_blocked remaining msg msg_prio s
      = (osOK, stored msg msg_prio (osDelay n s)).
Proof.
  induction remaining as [|r IH]; intros s n Hq Hn Hroom Hfull; [lia|].
  cbn. destruct (decide (n = 1%nat)) as [->|Hne].
  - cbn in Hroom. rewrite Hroom.
    apply put_with_room; [by apply tick_queue_is_Some | done].
  - pose proof (Hfull 1%nat ltac:(lia)) as H1. cbn in H1. rewrite H1.
    destruct n as [|n]; [lia|].
    apply (IH (tick s) n); [by apply tick_queue_is_Some | lia | done |].
    intros m Hm. apply (Hfull (S m)). lia.
Qed.

Lemma add_task_running (f : fn_ptr) (arg : Z) (qp : ThreadPoolPriority)
    (ep : osPriority_t) (timeout : nat) (s : system) (pool : ThreadPoolInternal) :
  g_threadpool s = Some pool →
  state pool = THREADPOOL_RUNNING →
  is_Some (queue s) →
  let task := mkTask (Some f) arg false qp ep in
  ((∀ n, (n ≤ timeout)%nat → queue_full (osDelay n s) = true) →
   core_thread_add_task (Some f) arg qp ep timeout s
     = (THREADPOOL_ERROR_QUEUE_FULL, osDelay timeout s)) ∧
  (∀ n, (n ≤ timeout)%nat →
        queue_full (osDelay n s) = false →
        (∀ m, (m < n)%nat → queue_full (osDelay m s) = true) →
        core_thread_add_task (Some f) arg qp ep timeout s
          = (THREADPOOL_SUCCESS, stored task (convert_priority qp) (osDelay n s))).
Proof.
  intros Hpool Hrun Hq task.
  unfold core_thread_add_task. rewrite Hpool, Hrun.
  rewrite bool_decide_eq_false_2 by (intros H; by apply H).
  fold task. unfold osMessageQueuePut. split.
  - intros Hfull.
    assert (H0 : queue_full s = true) by (apply (Hfull 0%nat); lia).
    rewrite H0. destruct timeout as [|t]; [done|].
    rewrite put_blocked_timeout; [done|]. intros n Hn. apply Hfull. lia.
  - intros n Hn Hroom Hfull. destruct n as [|n].
    + cbn in Hroom. rewrite Hroom. by rewrite put_with_room.
    + assert (H0 : queue_full s = true) by (apply (Hfull 0%nat); lia).
      rewrite H0. destruct timeout as [|t]; [lia|].
      rewrite (put_blocked_room _ _ _ s (S n)); [done..| |done|].
      * lia.
      * intros m Hm. apply Hfull. lia.
Qed.

Lemma stored_full_capacity_one (msg : Task) (msg_prio : Z) (s : system)
    (q : MessageQueue Task) :
  queue s = Some q → mq_capacity q = 1%nat →
  queue_full (stored msg msg_prio s) = true.
Proof.
  intros Hq Hcap. unfold queue_full, stored, mq_full. rewrite Hq. cbn.
  rewrite Hcap, mq_insert_length. done.
Qed.

(** A submission that does not wait, on a running pool whose queue holds
    one task at most: afterwards the queue is full, the pool is as
    before. *)
Lemma add_task_fills_capacity_one (f : fn_ptr) (arg : Z)
    (ep : osPriority_t) (s : system) (pool : ThreadPoolInternal)
    (q : MessageQueue Task) :
  g_threadpool s = Some pool →
  state pool = THREADPOOL_RUNNING →
  queue s = Some q → mq_capacity q = 1%nat →
  let s' := (core_thread_add_task (Some f) arg THREADPOOL_PRIORITY_LOW ep 0 s).2 in
  g_threadpool s' = Some pool ∧
  queue_full s' = true ∧
  ∃ q', queue s' = Some q' ∧ mq_capacity q' = 1%nat.
Proof.
  intros Hpool Hrun Hq Hcap.
  destruct (add_task_running f arg THREADPOOL_PRIORITY_LOW ep 0 s pool
              Hpool Hrun) as [Hfull Hroom]; [by rewrite Hq|].
  destruct (queue_full s) eqn:Hf.
  - rewrite Hfull.
    + cbn. eauto.
    + intros n Hn. replace n with 0%nat by lia. done.
  - rewrite (Hroom 0%nat); [|lia|done|intros; lia].
    cbn. split; [done|]. split.
    + by apply (stored_full_capacity_one _ _ s q).
    + rewrite Hq. cbn. eauto.
Qed.

(** C2.  The outcomes of a submission.  Without a pool:
    NotInitialized.  With a pool and no function: InvalidArgument.
    With a pool whose state is not RUNNING: Shutdown, and the system,
    with its queue and its record of executed tasks, is untouched.
    Otherwise the caller waits for room in the queue for [timeout]
    ticks at most: if the queue is full at the call and after each of
    these ticks, the result is QueueFull; if it has room after [n]
    ticks, for the first time, the task is stored then and the result is
    Success.  On a running pool of two workers whose queue holds one
    task, three consecutive submissions at low priority that do not
    wait, made while both workers are inside a task body, end with
    QueueFull for the third. *)
Theorem add_task_outcomes (function : option fn_ptr) (arg : Z)
    (queue_priority : ThreadPoolPriority) (execution_priority : osPriority_t)
    (timeout : nat) (s : system) :
  let call :=
    core_thread_add_task function arg queue_priority execution_priority
      timeout s in
  let task := mkTask function arg false queue_priority execution_priority in
  (g_threadpool s = None → call = (THREADPOOL_ERROR_NOT_INITIALIZED, s)) ∧
  (∀ pool, g_threadpool s = Some pool →
     (function = None → call = (THREADPOOL_ERROR_INVALID_ARG, s)) ∧
     (is_Some function → state pool ≠ THREADPOOL_RUNNING →
      call = (THREADPOOL_ERROR_SHUTDOWN, s)) ∧
     (is_Some function → state pool = THREADPOOL_RUNNING →
      is_Some (queue s) →
      ((∀ n, (n ≤ timeout)%nat → queue_full (osDelay n s) = true) →
       call = (THREADPOOL_ERROR_QUEUE_FULL, osDelay timeout s)) ∧
      (∀ n, (n ≤ timeout)%nat →
            queue_full (osDelay n s) = false →
            (∀ m, (m < n)%nat → queue_full (osDelay m s) = true) →
            call = (THREADPOOL_SUCCESS,
                    stored task (convert_priority queue_priority)
                           (osDelay n s)))) ∧
     (∀ f1 f2 f3 a1 a2 a3 e1 e2 e3 q w1 w2 t1 t2 c1 c2,
        state pool = THREADPOOL_RUNNING →
        thread_count pool = 2%nat →
        queue s = Some q → mq_capacity q = 1%nat →
        workers s = [w1; w2] →
        w_pc w1 = Running t1 c1 → w_pc w2 = Running t2 c2 →
        let s1 := (core_thread_add_task (Some f1) a1 THREADPOOL_PRIORITY_LOW
                     e1 0 s).2 in
        let s2 := (core_thread_add_task (Some f2) a2 THREADPOOL_PRIORITY_LOW
                     e2 0 s1).2 in
        (core_thread_add_task (Some f3) a3 THREADPOOL_PRIORITY_LOW e3 0 s2).1
          = THREADPOOL_ERROR_QUEUE_FULL)).
Proof.
  intros call task. split.
  { intros Hnone. subst call. unfold core_thread_add_task. by rewrite Hnone. }
  intros pool Hpool. split; [|split; [|split]].
  - intros ->. subst call. unfold core_thread_add_task. by rewrite Hpool.
  - intros [f ->] Hstate. subst call. unfold core_thread_add_task.
    rewrite Hpool. by rewrite bool_decide_eq_true_2.
  - intros [f ->] Hstate Hq.
    exact (add_task_running f arg queue_priority execution_priority timeout s
             pool Hpool Hstate Hq).
  - intros f1 f2 f3 a1 a2 a3 e1 e2 e3 q w1 w2 t1 t2 c1 c2
      Hstate _ Hq Hcap _ _ _ s1 s2.
    destruct (add_task_fills_capacity_one f1 a1 e1 s pool q Hpool Hstate Hq Hcap)
      as (Hp1 & _ & q1 & Hq1 & Hcap1). fold s1 in Hp1, Hq1.
    destruct (add_task_fills_capacity_one f2 a2 e2 s1 pool q1 Hp1 Hstate Hq1 Hcap1)
      as (Hp2 & Hfull2 & q2 & Hq2 & Hcap2). fold s2 in Hp2, Hq2, Hfull2.
    destruct (add_task_running f3 a3 THREADPOOL_PRIORITY_LOW e3 0 s2 pool
                Hp2 Hstate) as [Hfull _]; [by rewrite Hq2|].
    rewrite Hfull; [done|].
    intros n Hn. replace n with 0%nat by lia. done.
Qed.

Lemma add_task_outcomes_witness :
  let s1 := (core_thread_add_task (Some 3%nat) 0 THREADPOOL_PRIORITY_LOW
               osPriorityNormal 0 occupied_system).2 in
  let s2 := (core_thread_add_task (Some 4%nat) 0 THREADPOOL_PRIORITY_LOW
               osPriorityNormal 0 s1).2 in
  (core_thread_add_task (Some 5%nat) 0 THREADPOOL_PRIORITY_LOW
     osPriorityNormal 0 s2).1 = THREADPOOL_ERROR_QUEUE_FULL.
Proof.
  destruct (g_threadpool occupied_system) as [pool|] eqn:Hpool;
    [|vm_compute in Hpool; discriminate].
  assert (Hfields : state pool = THREADPOOL_RUNNING ∧ thread_count pool = 2%nat).
  { vm_compute in Hpool. injection Hpool as <-. done. }
  destruct Hfields as [Hstate Hcount].
  pose proof (add_task_outcomes None 0 THREADPOOL_PRIORITY_LOW 0 0
                occupied_system) as [_ H].
  destruct (H pool Hpool) as (_ & _ & _ & Hscenario).
  apply (Hscenario 3%nat 4%nat 5%nat 0 0 0 osPriorityNormal osPriorityNormal
           osPriorityNormal (mkQueue 1%nat [])
           (mkWorker 6%nat (Running (mkTask (Some 1%nat) 0 false
                                   THREADPOOL_PRIORITY_LOW osPriorityNormal)
                                false)
                     osPriorityNormal osPriorityNormal)
           (mkWorker 7%nat (Running (mkTask (Some 2%nat) 0 false
                                   THREADPOOL_PRIORITY_LOW osPriorityNormal)
                                false)
                     osPriorityNormal osPriorityNormal)
           (mkTask (Some 1%nat) 0 false THREADPOOL_PRIORITY_LOW osPriorityNormal)
           (mkTask (Some 2%nat) 0 false THREADPOOL_PRIORITY_LOW osPriorityNormal)
           false false Hstate Hcount);
    [vm_compute; reflexivity | reflexivity | vm_compute; reflexivity
    | reflexivity | reflexivity].
Defined.

End Submission.

Section ActiveCount.
Import CMSIS ThreadPool Reference.
Local Open Scope nat_scope.
Local Open Scope Z_scope.

Lemma count_in_task_body_le (ws : list worker) :
  (count_in_task_body ws ≤ length ws)%nat.
Proof.
  induction ws as [|w ws IH]; cbn; [lia|].
  destruct (in_task_body w); lia.
Qed.

Lemma count_in_task_body_insert (ws : list worker) :
  ∀ (i : nat) (w w' : worker),
    ws !! i = Some w →
    (count_in_task_body (<[i := w']> ws) + (if in_task_body w then 1 else 0)
     = count_in_task_body ws + (if in_task_body w' then 1 else 0))%nat.
Proof.
  induction ws as [|w0 ws IH]; intros i w w' Hi; [done|].
  destruct i as [|i].
  - injection Hi as ->. cbn. lia.
  - specialize (IH i w w' Hi).
    change (<[S i := w']> (w0 :: ws)) with (w0 :: <[i := w']> ws).
    cbn [count_in_task_body]. lia.
Qed.

Lemma wrap32_small (z : Z) : 0 ≤ z < 2 ^ 32 → wrap32 z = z.
Proof. intros Hz. unfold wrap32. by apply Z.mod_small. Qed.

(** The effect of giving worker [i] the program point [pc']. *)
Lemma count_after_pc (ws : list worker) (i : nat) (w w' : worker) :
  ws !! i = Some w →
  let ws' := <[i := w']> ws in
  length ws' = length ws ∧
  (count_in_task_body ws' + (if in_task_body w then 1 else 0)
   = count_in_task_body ws + (if in_task_body w' then 1 else 0))%nat ∧
  (count_in_task_body ws' ≤ length ws)%nat.
Proof.
  intros Hi ws'. split; [apply length_insert|]. split.
  - by apply count_in_task_body_insert.
  - rewrite <- (length_insert ws i w'). apply count_in_task_body_le.
Qed.

Lemma worker_step_invariant (i : nat) (s : system) :
  pool_invariant s → pool_invariant (worker_step i s).
Proof.
  intros (pool & Hpool & Hact & Hlen & Hrange & Hq).
  unfold worker_step. rewrite Hpool.
  destruct (workers s !! i) as [w|] eqn:Hw; [|by exists pool].
  destruct (w_pc w) as [|task|task changed|task|] eqn:Hpc.
  - destruct (osMessageQueueGet_ready (queue s)) as [[task q]|];
      [|by exists pool].
    destruct (count_after_pc (workers s) i w (with_pc Exited w) Hw)
      as (Hl1 & Hc1 & _).
    destruct (count_after_pc (workers s) i w (with_pc (Claimed task) w) Hw)
      as (Hl2 & Hc2 & _).
    unfold in_task_body in Hc1, Hc2. rewrite Hpc in Hc1, Hc2. cbn in Hc1, Hc2.
    destruct (is_shutdown_signal task); exists pool; cbn;
      (split; [done|]); (split; [rewrite Hact; lia|]);
      (split; [lia|]); done.
  - set (changed := bool_decide (execution_priority task ≠ w_default_priority w)).
    set (w1 := if changed then with_priority (execution_priority task) w else w).
    destruct (count_after_pc (workers s) i w
                (with_pc (Running task changed) w1) Hw) as (Hl & Hc & Hle).
    unfold in_task_body in Hc. rewrite Hpc in Hc. cbn in Hc.
    exists (set_active_tasks (wrap32 (active_tasks pool + 1)) pool).
    assert (Hsame : ∀ s0, workers (if changed
              then osThreadSetPriority (w_thread w) (execution_priority task) s0
              else s0) = workers s0 ∧
            g_threadpool (if changed
              then osThreadSetPriority (w_thread w) (execution_priority task) s0
              else s0) = g_threadpool s0 ∧
            queue (if changed
              then osThreadSetPriority (w_thread w) (execution_priority task) s0
              else s0) = queue s0)
      by (intros s0; by destruct changed).
    cbn. destruct (Hsame (set_pool
             (Some (set_active_tasks (wrap32 (active_tasks pool + 1)) pool)) s))
      as (-> & -> & ->).
    cbn. rewrite wrap32_small by lia.
    split; [done|]. split; [lia|]. split; [lia|]. done.
  - set (w1 := if changed then with_priority (w_default_priority w) w else w).
    destruct (count_after_pc (workers s) i w (with_pc (Finishing task) w1) Hw)
      as (Hl & Hc & Hle).
    unfold in_task_body in Hc. rewrite Hpc in Hc. cbn in Hc.
    exists pool. destruct changed; cbn;
      (split; [done|]); (split; [rewrite Hact; lia|]);
      (split; [lia|]); done.
  - destruct (count_after_pc (workers s) i w (with_pc WaitTask w) Hw)
      as (Hl & Hc & Hle).
    unfold in_task_body in Hc. rewrite Hpc in Hc. cbn in Hc.
    exists (set_active_tasks (wrap32 (active_tasks pool - 1)) pool).
    assert (Hsame : ∀ (b : bool) m s0,
              workers (if b then osThreadResume m s0 else s0) = workers s0 ∧
              g_threadpool (if b then osThreadResume m s0 else s0)
                = g_threadpool s0 ∧
              queue (if b then osThreadResume m s0 else s0) = queue s0)
      by (intros b m s0; by destruct b).
    cbn. destruct (main_thread pool) as [m|].
    + match goal with |- context [if ?b then osThreadResume _ _ else _] =>
        destruct (Hsame b m (set_pool
          (Some (set_active_tasks (wrap32 (active_tasks pool - 1)) pool)) s))
          as (-> & -> & ->) end.
      cbn. rewrite wrap32_small by lia.
      split; [done|]. split; [lia|]. split; [lia|]. done.
    + cbn. rewrite wrap32_small by lia.
      split; [done|]. split; [lia|]. split; [lia|]. done.
  - by exists pool.
Qed.

Lemma pool_invariant_ext (s s' : system) :
  g_threadpool s' = g_threadpool s →
  workers s' = workers s →
  (is_Some (queue s) → is_Some (queue s')) →
  pool_invariant s → pool_invariant s'.
Proof.
  intros Hg Hw Hq (pool & Hpool & Hact & Hlen & Hrange & Hqs).
  exists pool. rewrite Hg, Hw. repeat split; auto.
Qed.

Lemma run_workers_invariant (burst : list nat) (s : system) :
  pool_invariant s → pool_invariant (run_workers burst s).
Proof.
  revert s. induction burst as [|i burst IH]; intros s Hinv; [done|].
  apply IH. by apply worker_step_invariant.
Qed.

Lemma tick_invariant (s : system) :
  pool_invariant s → pool_invariant (tick s).
Proof.
  intros Hinv. unfold tick. destruct (script s) as [|burst rest]; [done|].
  apply run_workers_invariant. revert Hinv. by apply pool_invariant_ext.
Qed.

Lemma osDelay_invariant (n : nat) (s : system) :
  pool_invariant s → pool_invariant (osDelay n s).
Proof.
  revert s. induction n as [|n IH]; intros s Hinv; [done|].
  apply IH. by apply tick_invariant.
Qed.

Lemma put_nowait_invariant (msg : Task) (msg_prio : Z) (s : system) :
  pool_invariant s →
  pool_invariant
    (let '(st, q) := osMessageQueuePut_nowait (queue s) msg msg_prio in
     (st, set_queue q s)).2.
Proof.
  apply pool_invariant_ext.
  - by destruct (osMessageQueuePut_nowait _ _ _).
  - by destruct (osMessageQueuePut_nowait _ _ _).
  - intros [q Hq]. rewrite Hq. unfold osMessageQueuePut_nowait.
    by destruct (mq_full q).
Qed.

Lemma put_blocked_invariant (msg : Task) (msg_prio : Z) (remaining : nat) :
  ∀ s, pool_invariant s →
       pool_invariant (put_blocked remaining msg msg_prio s).2.
Proof.
  induction remaining as [|r IH]; intros s Hinv; [done|].
  cbn. destruct (queue_full (tick s)).
  - apply IH. by apply tick_invariant.
  - apply put_nowait_invariant. by apply tick_invariant.
Qed.

Lemma osMessageQueuePut_invariant (msg : Task) (msg_prio : Z)
    (timeout : nat) (s : system) :
  pool_invariant s →
  pool_invariant (osMessageQueuePut msg msg_prio timeout s).2.
Proof.
  intros Hinv. unfold osMessageQueuePut. destruct (queue_full s).
  - destruct timeout; [done|]. by apply put_blocked_invariant.
  - by apply put_nowait_invariant.
Qed.

Lemma add_task_invariant f a qp ep (timeout : nat) (s : system) :
  pool_invariant s →
  pool_invariant (core_thread_add_task f a qp ep timeout s).2.
Proof.
  intros Hinv. unfold core_thread_add_task.
  destruct (g_threadpool s) as [pool|]; [|done].
  destruct f as [f|]; [|done].
  destruct (bool_decide _); [done|].
  pose proof (osMessageQueuePut_invariant
                (mkTask (Some f) a false qp ep) (convert_priority qp)
                timeout s Hinv) as Hput.
  destruct (osMessageQueuePut _ _ _ s) as [st s']. by destruct st.
Qed.

Lemma signal_workers_invariant (threads : list (option handle))
    (remaining : nat) :
  ∀ i s, pool_invariant s →
         pool_invariant (signal_workers remaining i threads s).
Proof.
  induction remaining as [|r IH]; intros i s Hinv; [done|].
  cbn. apply IH. destruct (threads !! i) as [[h|]|]; [|done..].
  by apply osMessageQueuePut_invariant.
Qed.

Lemma apply_op_invariant (op : pool_op) (s : system) :
  pool_invariant s → pool_invariant (apply_op op s).
Proof.
  intros Hinv. destruct op as [i|f a qp ep timeout|config caller| | | |n]; cbn.
  - by apply worker_step_invariant.
  - by apply add_task_invariant.
  - destruct Hinv as (pool & Hpool & Hrest).
    unfold core_thread_init_with_config. rewrite Hpool.
    destruct config; by exists pool.
  - unfold core_thread_wait_and_suspend.
    destruct (g_threadpool s) as [pool|]; [|done].
    destruct (negb _); [done|].
    destruct (main_thread pool); [|done].
    destruct (bool_decide _); [|done].
    revert Hinv. by apply pool_invariant_ext.
  - destruct Hinv as (pool & Hpool & Hrest). rewrite Hpool.
    destruct (state_mutex pool); by eexists.
  - destruct (g_threadpool s) as [pool|]; [|done].
    destruct (task_queue pool); [|done].
    destruct (worker_threads pool) as [[a threads]|]; [|done].
    by apply signal_workers_invariant.
  - by apply osDelay_invariant.
Qed.

Lemma run_ops_invariant (ops : list pool_op) (s : system) :
  pool_invariant s → pool_invariant (run_ops ops s).
Proof.
  revert s. induction ops as [|op ops IH]; intros s Hinv; [done|].
  apply IH. by apply apply_op_invariant.
Qed.

End ActiveCount.

Section Initialisation.
Import CMSIS ThreadPool Reference.
Local Open Scope nat_scope.
Local Open Scope Z_scope.

Lemma set_worker_threads_twice a b (p : ThreadPoolInternal) :
  set_worker_threads a (set_worker_threads b p) = set_worker_threads a p.
Proof. done. Qed.

Lemma create_workers_success (remaining : nat) :
  ∀ (i : nat) (pool pool' : ThreadPoolInternal) (k k' : kernel)
    (a : handle) (hs : list (option handle)),
    create_workers remaining i pool k = (true, pool', k') →
    worker_threads pool = Some (a, hs) →
    (i + remaining ≤ length hs)%nat →
    ∃ hs',
      pool' = set_worker_threads (Some (a, hs')) pool ∧
      length hs' = length hs ∧
      (∀ j, (j < i)%nat → hs' !! j = hs !! j) ∧
      (∀ j, (i ≤ j < i + remaining)%nat → ∃ h, hs' !! j = Some (Some h)).
Proof.
  induction remaining as [|r IH]; intros i pool pool' k k' a hs Hrun Harr Hlen.
  - injection Hrun as <- <-. exists hs.
    split; [destruct pool; cbn in *; by rewrite Harr|].
    split; [done|]. split; [done|]. intros j Hj. lia.
  - cbn in Hrun. destruct (osThreadNew k) as [[t|] k1]; [|done].
    assert (Harr1 : worker_threads (store_worker i (Some t) pool)
                    = Some (a, <[i := Some t]> hs)).
    { unfold store_worker. cbn. by rewrite Harr. }
    destruct (IH (S i) _ pool' k1 k' a _ Hrun Harr1) as (hs' & -> & Hl & Hlow & Hnew).
    { rewrite length_insert. lia. }
    exists hs'. split; [done|]. split; [by rewrite Hl, length_insert|].
    split.
    + intros j Hj. rewrite Hlow by lia. by rewrite list_lookup_insert_ne by lia.
    + intros j Hj. destruct (decide (j = i)) as [->|Hne].
      * exists t. rewrite Hlow by lia. apply list_lookup_insert_eq. lia.
      * apply Hnew. lia.
Qed.

(** What a successful construction returns. *)
Lemma create_success (config : option ThreadPoolConfig)
    (caller : option handle) (k k' : kernel) (pool : ThreadPoolInternal) :
  create_threadpool_internal config caller k = (Some pool, k') →
  ∃ cfg a hs,
    config = Some cfg ∧
    ThreadPool.config pool = cfg ∧
    thread_count pool = cfg_thread_count cfg ∧
    (0 < cfg_thread_count cfg)%nat ∧
    state pool = THREADPOOL_RUNNING ∧
    active_tasks pool = 0 ∧
    low_power_mode pool = cfg_low_power_mode cfg ∧
    main_thread pool = (if cfg_low_power_mode cfg then caller else None) ∧
    is_Some (state_mutex pool) ∧
    is_Some (active_tasks_mutex pool) ∧
    is_Some (task_queue pool) ∧
    worker_threads pool = Some (a, hs) ∧
    length hs = cfg_thread_count cfg ∧
    Forall is_Some hs.
Proof.
  unfold create_threadpool_internal. destruct config as [cfg|]; [|done].
  case_bool_decide as Hzero; [done|].
  destruct (pvPortMalloc k) as [[addr|] k1]; [|done].
  destruct (osMutexNew k1) as [sm k2].
  destruct (osMutexNew k2) as [am k3].
  case_bool_decide as Hmutex; [done|].
  destruct (osMessageQueueNew k3) as [q k4].
  case_bool_decide as Hqueue; [done|].
  destruct (pvPortMalloc k4) as [arr k5].
  case_bool_decide as Harr; [done|].
  destruct arr as [a|]; [|done].
  destruct (create_workers _ _ _ k5) as [[ok pool1] k6] eqn:Hworkers.
  destruct ok; [|done]. intros [= <- <-].
  destruct (create_workers_success _ _ _ _ _ _ a
              (replicate (cfg_thread_count cfg) None) Hworkers)
    as (hs & -> & Hl & _ & Hnew); [done | by rewrite length_replicate |].
  rewrite length_replicate in Hl.
  assert (Hsm : is_Some sm) by (destruct sm; [by eexists | tauto]).
  assert (Ham : is_Some am) by (destruct am; [by eexists | tauto]).
  assert (Hq : is_Some q) by (destruct q; [by eexists | done]).
  exists cfg, a, hs. cbn.
  repeat (split; [first [done | lia]|]).
  apply Forall_lookup. intros j h Hj.
  destruct (Hnew j) as [t Ht].
  - apply lookup_lt_Some in Hj. lia.
  - rewrite Hj in Ht. injection Ht as ->. by eexists.
Qed.

Lemma started_workers_spec (pool : ThreadPoolInternal) (a : handle)
    (hs : list (option handle)) :
  worker_threads pool = Some (a, hs) →
  Forall is_Some hs →
  length (started_workers pool) = length hs ∧
  count_in_task_body (started_workers pool) = 0%nat.
Proof.
  intros Harr Hall. unfold started_workers. rewrite Harr. clear Harr.
  induction Hall as [|h hs [t ->] _ [IHl IHc]]; [done|].
  cbn. split; [by rewrite IHl | done].
Qed.

Lemma init_invariant (cfg : ThreadPoolConfig) (caller : option handle)
    (k : kernel) (sc : list (list nat)) (s : system) :
  config_in_range cfg →
  core_thread_init_with_config (Some cfg) caller (boot k sc) = (true, s) →
  pool_invariant s.
Proof.
  intros (Hrange & _ & _). unfold core_thread_init_with_config.
  cbn [boot g_threadpool kern].
  destruct (create_threadpool_internal (Some cfg) caller k)
    as [[pool|] k'] eqn:Hcreate; [|done].
  intros [= <-].
  destruct (create_success _ _ _ _ _ Hcreate)
    as (cfg' & a & hs & [= <-] & _ & Hcount & _ & _ & Hact & _ & _ & _ & _
        & _ & Harr & Hlen & Hall).
  destruct (started_workers_spec pool a hs Harr Hall) as [Hl Hc].
  exists pool. cbn. rewrite Hc, Hl, Hlen, Hcount.
  repeat split; [done.. | by eexists].
Qed.

Lemma reachable_invariant (s : system) : reachable s → pool_invariant s.
Proof.
  intros (cfg & caller & k & sc & s0 & ops & Hrange & Hinit & ->).
  apply run_ops_invariant. by eapply init_invariant.
Qed.

End Initialisation.

Section ActiveCountBounds.
Import CMSIS ThreadPool Reference.
Local Open Scope nat_scope.
Local Open Scope Z_scope.

(** How one step of a worker moves the counter: up by one on the step
    that enters the task body, down by one on the step that follows
    the return of the task body, not at all otherwise. *)
Lemma worker_step_counter (i : nat) (s : system) (pool : ThreadPoolInternal)
    (w : worker) :
  pool_invariant s →
  g_threadpool s = Some pool →
  workers s !! i = Some w →
  ∃ pool' w',
    g_threadpool (worker_step i s) = Some pool' ∧
    workers (worker_step i s) !! i = Some w' ∧
    match w_pc w with
    | Claimed t =>
        active_tasks pool' = active_tasks pool + 1 ∧
        (∃ changed, w_pc w' = Running t changed) ∧
        last (events (worker_step i s))
          = Some (EvTaskCall (w_thread w) (function t) (arg t))
    | Finishing t =>
        active_tasks pool' = active_tasks pool - 1 ∧ w_pc w' = WaitTask
    | _ => active_tasks pool' = active_tasks pool
    end.
Proof.
  intros (pool0 & Hpool0 & Hact & Hlen & Hrange & Hq) Hpool Hw.
  rewrite Hpool in Hpool0. injection Hpool0 as <-.
  assert (Hi : (i < length (workers s))%nat) by by eapply lookup_lt_Some.
  pose proof (count_in_task_body_le (workers s)) as Hle.
  unfold worker_step. rewrite Hpool, Hw.
  destruct (w_pc w) as [|task|task changed|task|] eqn:Hpc.
  - destruct (osMessageQueueGet_ready (queue s)) as [[task q]|];
      [|by exists pool, w].
    destruct (is_shutdown_signal task); (eexists pool, _); cbn;
      (split; [done|]); (split; [by apply list_lookup_insert_eq|]); done.
  - destruct (count_after_pc (workers s) i w
                (with_pc (Running task true) w) Hw) as (_ & Hc & Hle').
    unfold in_task_body in Hc. rewrite Hpc in Hc. cbn in Hc.
    destruct (bool_decide (execution_priority task ≠ w_default_priority w));
      (eexists (set_active_tasks _ pool), _);
      cbn; (split; [done|]); (split; [by apply list_lookup_insert_eq|]);
      rewrite wrap32_small by lia;
      (split; [done|]); (split; [by eexists|]);
      by rewrite last_snoc.
  - destruct changed; (eexists pool, _); cbn;
      (split; [done|]); (split; [by apply list_lookup_insert_eq|]); done.
  - destruct (count_after_pc (workers s) i w (with_pc WaitTask w) Hw)
      as (_ & Hc & _).
    unfold in_task_body in Hc. rewrite Hpc in Hc. cbn in Hc.
    cbn.
    destruct (main_thread pool) as [m|];
      [destruct (_ && _)|]; (eexists (set_active_tasks _ pool), _); cbn;
      (split; [done|]); (split; [by apply list_lookup_insert_eq|]);
      rewrite wrap32_small by lia; done.
  - by exists pool, w.
Qed.

(** C3.  In every state a constructed pool can reach, the number of
    active tasks is the number of workers that stand between the
    increment and the decrement of the counter, so it lies between 0
    and [thread_count], and so do both reading functions.  A worker
    raises the counter by one in the step in which it calls the task
    body, lowers it by one in the step that follows the return of the
    task body, and leaves it alone in every other step. *)
Theorem active_tasks_within_bounds (s : system) (pool : ThreadPoolInternal) :
  reachable s →
  g_threadpool s = Some pool →
  0 ≤ active_tasks pool ≤ Z.of_nat (thread_count pool) ∧
  active_tasks pool = Z.of_nat (count_in_task_body (workers s)) ∧
  length (workers s) = thread_count pool ∧
  0 ≤ core_thread_get_active_tasks_count s ≤ Z.of_nat (thread_count pool) ∧
  0 ≤ core_thread_get_active_tasks_count_wo_mutex s
    ≤ Z.of_nat (thread_count pool) ∧
  (∀ i w, workers s !! i = Some w →
     ∃ pool' w',
       g_threadpool (worker_step i s) = Some pool' ∧
       workers (worker_step i s) !! i = Some w' ∧
       match w_pc w with
       | Claimed t =>
           active_tasks pool' = active_tasks pool + 1 ∧
           (∃ changed, w_pc w' = Running t changed) ∧
           last (events (worker_step i s))
             = Some (EvTaskCall (w_thread w) (function t) (arg t))
       | Finishing t =>
           active_tasks pool' = active_tasks pool - 1 ∧ w_pc w' = WaitTask
       | _ => active_tasks pool' = active_tasks pool
       end).
Proof.
  intros Hreach Hpool.
  pose proof (reachable_invariant s Hreach) as Hinv.
  destruct Hinv as (pool0 & Hpool0 & Hact & Hlen & Hrange & Hq).
  assert (pool0 = pool) as -> by congruence.
  pose proof (count_in_task_body_le (workers s)) as Hle.
  assert (Hbound : 0 ≤ active_tasks pool ≤ Z.of_nat (thread_count pool))
    by lia.
  split; [done|]. split; [done|]. split; [done|].
  unfold core_thread_get_active_tasks_count,
    core_thread_get_active_tasks_count_wo_mutex.
  rewrite Hpool. split; [destruct (active_tasks_mutex pool); lia|].
  split; [done|].
  intros i w Hw. apply worker_step_counter; [|done..].
  by apply reachable_invariant.
Qed.

Lemma occupied_system_reachable : reachable occupied_system.
Proof.
  exists small_config, (Some 100%nat), (fresh_kernel []), [],
    (core_thread_init_with_config (Some small_config) (Some 100%nat)
       (boot (fresh_kernel []) [])).2, occupied_ops.
  split; [repeat split; vm_compute; reflexivity|].
  split; [vm_compute; reflexivity | reflexivity].
Defined.

Lemma active_tasks_within_bounds_witness :
  0 ≤ core_thread_get_active_tasks_count occupied_system ≤ 2.
Proof.
  destruct (g_threadpool occupied_system) as [pool|] eqn:Hpool;
    [|vm_compute in Hpool; discriminate].
  pose proof (active_tasks_within_bounds occupied_system pool
                occupied_system_reachable Hpool) as (_ & _ & _ & H & _).
  assert (Htc : thread_count pool = 2%nat).
  { vm_compute in Hpool. injection Hpool as <-. reflexivity. }
  rewrite Htc in H. exact H.
Defined.

End ActiveCountBounds.

Section LowPower.
Import CMSIS ThreadPool Reference.
Local Open Scope nat_scope.
Local Open Scope Z_scope.

Lemma count_resumes_app (l1 l2 : list os_event) :
  count_resumes (l1 ++ l2) = (count_resumes l1 + count_resumes l2)%nat.
Proof.
  induction l1 as [|e l1 IH]; [done|].
  destruct e; cbn; rewrite IH; lia.
Qed.

(** A worker step changes nothing of the pool structure but the
    counter. *)
Lemma worker_step_pool (i : nat) (s : system) (pool : ThreadPoolInternal) :
  g_threadpool s = Some pool →
  ∃ n, g_threadpool (worker_step i s) = Some (set_active_tasks n pool).
Proof.
  intros Hpool.
  assert (Hsame : ∀ s', g_threadpool s' = Some pool →
            ∃ n, g_threadpool s' = Some (set_active_tasks n pool)).
  { intros s' ->. exists (active_tasks pool). by destruct pool. }
  unfold worker_step. rewrite Hpool.
  destruct (workers s !! i) as [w|]; [|by apply Hsame].
  destruct (w_pc w) as [|task|task changed|task|].
  - destruct (osMessageQueueGet_ready (queue s)) as [[task q]|];
      [|by apply Hsame].
    destruct (is_shutdown_signal task); by apply Hsame.
  - destruct (bool_decide _); by eexists.
  - destruct changed; by apply Hsame.
  - cbn. destruct (main_thread pool); [destruct (_ && _)|]; by eexists.
  - by apply Hsame.
Qed.

(** The resume calls of one worker step: one, for the main thread, when
    the step takes the counter from one to zero on a running pool in
    low-power mode; none otherwise. *)
Lemma worker_step_resumes (i : nat) (s : system) (pool : ThreadPoolInternal)
    (m : handle) :
  pool_invariant s →
  g_threadpool s = Some pool →
  low_power_mode pool = true →
  main_thread pool = Some m →
  let s' := worker_step i s in
  if (reaches_zero i s && bool_decide (state pool = THREADPOOL_RUNNING))
  then ((events s' = events s ++ [EvThreadResume m]) ∧
         (m ∉ suspended s') ∧
         core_thread_get_active_tasks_count_wo_mutex s' = 0)
  else (count_resumes (events s') = count_resumes (events s) ∧
        suspended s' = suspended s).
Proof.
  intros (pool0 & Hpool0 & Hact & Hlen & Hrange & Hq) Hpool Hlow Hmain.
  rewrite Hpool in Hpool0. injection Hpool0 as <-.
  unfold reaches_zero, worker_step, core_thread_get_active_tasks_count_wo_mutex.
  rewrite Hpool.
  destruct (workers s !! i) as [w|] eqn:Hw; [|done].
  destruct (w_pc w) as [|task|task changed|task|] eqn:Hpc; cbn [andb].
  - destruct (osMessageQueueGet_ready (queue s)) as [[task q]|]; [|done].
    destruct (is_shutdown_signal task); cbn; [|done].
    by rewrite count_resumes_app, Nat.add_0_r.
  - destruct (bool_decide (_ ≠ _)); cbn;
      rewrite !count_resumes_app; cbn; split; (lia || done).
  - destruct changed; cbn; rewrite !count_resumes_app; cbn;
      split; (lia || done).
  - destruct (count_after_pc (workers s) i w (with_pc WaitTask w) Hw)
      as (_ & Hc & _).
    unfold in_task_body in Hc. rewrite Hpc in Hc. cbn in Hc.
    pose proof (count_in_task_body_le (workers s)) as Hle.
    cbn. rewrite Hmain, Hlow. rewrite wrap32_small by lia.
    destruct (bool_decide (state pool = THREADPOOL_RUNNING));
      destruct (bool_decide (active_tasks pool = 1)) eqn:Hone;
      [apply bool_decide_eq_true_1 in Hone
      |apply bool_decide_eq_false_1 in Hone
      |rewrite !andb_false_r; done
      |rewrite !andb_false_r; done].
    + rewrite bool_decide_eq_true_2 by lia. cbn.
      split; [done|]. split; [|lia].
      intros [_ Hm]%elem_of_difference. apply Hm. by apply elem_of_singleton.
    + rewrite bool_decide_eq_false_2 by lia. done.
  - done.
Qed.

Lemma run_workers_resumes (burst : list nat) :
  ∀ (s : system) (pool : ThreadPoolInternal) (m : handle),
    pool_invariant s →
    g_threadpool s = Some pool →
    low_power_mode pool = true →
    main_thread pool = Some m →
    count_resumes (events (run_workers burst s))
    = (count_resumes (events s)
       + (if bool_decide (state pool = THREADPOOL_RUNNING)
          then zero_transitions burst s else 0))%nat.
Proof.
  induction burst as [|i burst IH]; intros s pool m Hinv Hpool Hlow Hmain.
  - cbn. destruct (bool_decide _); lia.
  - destruct (worker_step_pool i s pool Hpool) as [n Hpool'].
    cbn [run_workers foldl zero_transitions].
    change (foldl (λ s i, worker_step i s) (worker_step i s) burst)
      with (run_workers burst (worker_step i s)).
    rewrite (IH (worker_step i s) (set_active_tasks n pool) m);
      [|by apply worker_step_invariant|done..].
    pose proof (worker_step_resumes i s pool m Hinv Hpool Hlow Hmain) as Hstep.
    cbn in Hstep. cbn [state set_active_tasks].
    destruct (reaches_zero i s); destruct (bool_decide _); cbn in Hstep.
    + destruct Hstep as (-> & _). rewrite count_resumes_app. cbn. lia.
    + destruct Hstep as (-> & _). lia.
    + destruct Hstep as (-> & _). lia.
    + destruct Hstep as (-> & _). lia.
Qed.

(** C8.  On a pool in low-power mode whose main thread is [m]:
    wait_and_suspend, called while the counter is positive, suspends
    [m]; a worker step resumes [m], with one osThreadResume call, exactly
    when it takes the counter from one to zero while the state is
    RUNNING, and then [m] is no longer suspended; and over any sequence
    of worker steps on a running pool the number of resume calls is the
    number of times the counter went from one to zero. *)
Theorem low_power_suspend_and_resume (s : system) (pool : ThreadPoolInternal)
    (m : handle) :
  reachable s →
  g_threadpool s = Some pool →
  low_power_mode pool = true →
  main_thread pool = Some m →
  (0 < active_tasks pool →
   core_thread_wait_and_suspend s = osThreadSuspend m s ∧
   m ∈ suspended (core_thread_wait_and_suspend s) ∧
   last (events (core_thread_wait_and_suspend s)) = Some (EvThreadSuspend m)) ∧
  (∀ i,
     let s' := worker_step i s in
     if (reaches_zero i s && bool_decide (state pool = THREADPOOL_RUNNING))
     then ((events s' = events s ++ [EvThreadResume m]) ∧
            (m ∉ suspended s') ∧
            core_thread_get_active_tasks_count_wo_mutex s' = 0)
     else (count_resumes (events s') = count_resumes (events s) ∧
           suspended s' = suspended s)) ∧
  (∀ burst,
     state pool = THREADPOOL_RUNNING →
     count_resumes (events (run_workers burst s))
     = (count_resumes (events s) + zero_transitions burst s)%nat).
Proof.
  intros Hreach Hpool Hlow Hmain.
  pose proof (reachable_invariant s Hreach) as Hinv.
  split; [|split].
  - intros Hpos. unfold core_thread_wait_and_suspend.
    rewrite Hpool, Hlow, Hmain. cbn [negb].
    rewrite bool_decide_eq_true_2 by done.
    split; [done|]. split; [cbn; set_solver|].
    cbn. by rewrite last_snoc.
  - intros i. by apply worker_step_resumes.
  - intros burst Hrun.
    rewrite (run_workers_resumes burst s pool m Hinv Hpool Hlow Hmain).
    by rewrite bool_decide_eq_true_2.
Qed.

Lemma low_power_system_reachable : reachable low_power_system.
Proof.
  exists low_power_config, (Some 100%nat), (fresh_kernel []), [],
    (core_thread_init_with_config (Some low_power_config) (Some 100%nat)
       (boot (fresh_kernel []) [])).2, occupied_ops.
  split; [repeat split; vm_compute; reflexivity|].
  split; [vm_compute; reflexivity | reflexivity].
Defined.

Lemma low_power_suspend_and_resume_witness :
  100%nat ∈ suspended (core_thread_wait_and_suspend low_power_system) ∧
  count_resumes (events (run_workers [0; 0; 1; 1]%nat low_power_system)) = 1%nat.
Proof.
  destruct (g_threadpool low_power_system) as [pool|] eqn:Hpool;
    [|vm_compute in Hpool; discriminate].
  assert (Hfields : low_power_mode pool = true ∧ main_thread pool = Some 100%nat
                    ∧ active_tasks pool = 2 ∧ state pool = THREADPOOL_RUNNING).
  { vm_compute in Hpool. injection Hpool as <-. done. }
  destruct Hfields as (Hlow & Hmain & Hact & Hrun).
  destruct (low_power_suspend_and_resume low_power_system pool 100%nat
              low_power_system_reachable Hpool Hlow Hmain)
    as (Hsuspend & _ & Hcount).
  split.
  - apply Hsuspend. rewrite Hact. lia.
  - rewrite (Hcount _ Hrun). vm_compute. reflexivity.
Defined.

End LowPower.

Section Teardown.
Import CMSIS ThreadPool Reference.
Local Open Scope nat_scope.
Local Open Scope Z_scope.


















End Teardown.
